(** * Crypto streaming dashboard: the rates stream of the frontend

    A shallow embedding of [frontend/src/types/rates.ts],
    [frontend/src/hooks/useRatesStream.ts] and
    [frontend/src/components/MiniChart/MiniChart.tsx], with the properties
    the specification states about them, and a model of the aggregator of
    the backend after the specification's text.

    JavaScript numbers are IEEE 754 binary64 values: they are modelled by
    Rocq's primitive floats, which are the same format.  Strings are
    [string]; arrays are lists, read by index with [!!]. *)

From Stdlib Require Import ZArith QArith Floats.
From stdpp Require Import base list strings pretty gmap.

Local Open Scope nat_scope.

(** ** types/rates.ts *)

Module PricePoint.
Record t := mk {
  timestamp : string;   (* ISO string *)
  price : float;
}.
End PricePoint.

(** State for a single pair on the frontend. *)
Module PairState.
Record t := mk {
  pair : string;
  price : option float;        (* number | null *)
  hourly_avg : option float;   (* number | null *)
  last_update : option string; (* string | null *)
  history : list PricePoint.t; (* used only for charts *)
}.
End PairState.

(** Message format that arrives via WebSocket. *)
Module RateUpdateMessage.
Record t := mk {
  pair : string;
  price : float;
  hourly_avg : float;
  last_update : string;
}.
End RateUpdateMessage.

(** ** hooks/useRatesStream.ts: the pure part *)

Module RatesStream.

Definition MAX_POINTS : nat := 40.

(** [arr.splice(0, n)] on an array: the first [n] elements are removed in
    place and the rest stays, in order. *)
Definition splice_front {A} (n : nat) (arr : list A) : list A := drop n arr.

(** [fromSnapshot]: every entry is spread into a new object whose [history]
    is the empty array.  The value passed at the call site is what
    [fetchRatesSnapshot] returns, a [PairState[]] (cast with [as any]), so an
    entry may carry a history of its own; the spread copies it and the
    [history: []] that follows overrides it. *)
Definition fromSnapshot (snapshot : list PairState.t) : list PairState.t :=
  (λ s, {| PairState.pair := PairState.pair s;
           PairState.price := PairState.price s;
           PairState.hourly_avg := PairState.hourly_avg s;
           PairState.last_update := PairState.last_update s;
           PairState.history := [] |}) <$> snapshot.

(** The [point] built in the first lines of [appendHistoryPoint]. *)
Definition pointOf (update : RateUpdateMessage.t) : PricePoint.t :=
  {| PricePoint.timestamp := RateUpdateMessage.last_update update;
     PricePoint.price := RateUpdateMessage.price update |}.

(** The history after the [if (nextHistory.length > MAX_POINTS)] block (the
    test is written with [<], its operands swapped). *)
Definition trimHistory (nextHistory : list PricePoint.t) : list PricePoint.t :=
  if decide (MAX_POINTS < length nextHistory)
  then splice_front (length nextHistory - MAX_POINTS) nextHistory
  else nextHistory.

(** The callback given to [current.map] in [appendHistoryPoint]. *)
Definition mergeUpdate (update : RateUpdateMessage.t) (pair : PairState.t)
  : PairState.t :=
  if decide (PairState.pair pair ≠ RateUpdateMessage.pair update) then pair
  else
    let nextHistory := PairState.history pair ++ [pointOf update] in
    let nextHistory := trimHistory nextHistory in
    {| PairState.pair := PairState.pair pair;
       PairState.price := Some (RateUpdateMessage.price update);
       PairState.hourly_avg := Some (RateUpdateMessage.hourly_avg update);
       PairState.last_update := Some (RateUpdateMessage.last_update update);
       PairState.history := nextHistory |}.

Definition appendHistoryPoint (current : list PairState.t)
    (update : RateUpdateMessage.t) : list PairState.t :=
  mergeUpdate update <$> current.

(** A sequence of [setRates((prev) => appendHistoryPoint(prev, msg))] calls,
    in arrival order. *)
Definition applyUpdates (current : list PairState.t)
    (updates : list RateUpdateMessage.t) : list PairState.t :=
  foldl appendHistoryPoint current updates.

(** The state of one pair after a sequence of updates: the callback of
    [appendHistoryPoint] run on it for each update in turn. *)
Definition mergeUpdates (p : PairState.t) (us : list RateUpdateMessage.t)
  : PairState.t :=
  foldl (λ p u, mergeUpdate u p) p us.

(** The updates of a sequence that are addressed to a pair. *)
Definition ownUpdates (pair : PairState.t) (updates : list RateUpdateMessage.t)
  : list RateUpdateMessage.t :=
  filter (λ u, RateUpdateMessage.pair u = PairState.pair pair) updates.

(** The most recent (at most [n]) elements of a list, in their order. *)
Definition lastN {A} (n : nat) (l : list A) : list A := drop (length l - n) l.

(** *** The hook [useRatesStream] *)

Module ConnectionStatus.
Inductive t := idle | connecting | connected | closed | error.
End ConnectionStatus.

(** What the hook returns: its three [useState] cells. *)
Record UseRatesStreamResult := mkResult {
  rates : list PairState.t;
  connectionStatus : ConnectionStatus.t;
  error : option string;
}.

(** The calls of the hook that the properties below speak about, recorded in
    the order they are made. *)
Inductive Effect :=
| SetRatesSnapshot (snapshot : list PairState.t)
    (* setRates(fromSnapshot(snapshot)) *)
| SetRatesUpdate (msg : RateUpdateMessage.t)
    (* setRates((prev) => appendHistoryPoint(prev, msg)) *)
| NewWebSocket.
    (* new WebSocket(wsUrl) *)

(** Where the effect's closure stands: [start] is suspended at its [await],
    or it has run to its end, leaving [ws] with its four handlers, or leaving
    [ws] null because the constructor threw. *)
Inductive Phase := AwaitingSnapshot | Streaming | NoSocket.

Record Hook := mkHook {
  result : UseRatesStreamResult;
  phase : Phase;
  effects : list Effect;   (* oldest first *)
}.

(** How the first [try] block ends (the awaited [fetchRatesSnapshot()]
    resolves with the pairs, or something in the block throws), and whether
    [new WebSocket(wsUrl)] returns or throws. *)
Inductive FetchOutcome := Resolved (snapshot : list PairState.t) | Rejected.
Inductive SocketOutcome := Constructed | Threw.

(** What the browser delivers to the hook: the settled fetch, which resumes
    [start], and the four events of the socket. *)
Inductive Event :=
| SnapshotSettled (fetched : FetchOutcome) (socket : SocketOutcome)
| Open
| Message (data : string)
| Error
| Close.

(** A piece of the hook's code, as a change of its state; [a >>> b] runs [a]
    and then [b]. *)
Definition Action := Hook → Hook.

Definition andThen (a b : Action) : Action := λ h, b (a h).
Infix ">>>" := andThen (at level 61, left associativity).

Definition skip : Action := λ h, h.

Definition emit (e : Effect) : Action :=
  λ h, mkHook (result h) (phase h) (effects h ++ [e]).

Definition setRates (f : list PairState.t → list PairState.t) : Action :=
  λ h, mkHook (mkResult (f (rates (result h)))
                        (connectionStatus (result h)) (error (result h)))
              (phase h) (effects h).

Definition setConnectionStatus (s : ConnectionStatus.t) : Action :=
  λ h, mkHook (mkResult (rates (result h)) s (error (result h)))
              (phase h) (effects h).

Definition setError (e : option string) : Action :=
  λ h, mkHook (mkResult (rates (result h)) (connectionStatus (result h)) e)
              (phase h) (effects h).

Definition enter (p : Phase) : Action :=
  λ h, mkHook (result h) p (effects h).

(** The state of a freshly mounted hook, [start()] called and waiting for the
    snapshot. *)
Definition mounted : Hook :=
  mkHook (mkResult [] ConnectionStatus.idle None) AwaitingSnapshot [].

Section Hook.

(** [JSON.parse] on the data of a message: [None] when it throws, [Some] of
    the message for data of the declared shape [RateUpdateMessage].  The
    source casts the parsed value without a check; data that parses to a
    value of another shape (a missing field, [null]) is outside this model. *)
Variable JSON_parse : string → option RateUpdateMessage.t.

(** The first [try]/[catch] of [start]. *)
Definition loadSnapshot (fetched : FetchOutcome) : Action :=
  match fetched with
  | Resolved snapshot =>
      emit (SetRatesSnapshot snapshot) >>> setRates (λ _, fromSnapshot snapshot)
  | Rejected =>
      (* console.error *)
      setError (Some "Failed to load initial rates.")
  end.

(** The rest of [start]. *)
Definition openSocket (socket : SocketOutcome) : Action :=
  setConnectionStatus ConnectionStatus.connecting >>>
  emit NewWebSocket >>>
  match socket with
  | Constructed => enter Streaming
  | Threw =>
      (* console.error *)
      setConnectionStatus ConnectionStatus.error >>>
      setError (Some "Could not open WebSocket connection.") >>>
      enter NoSocket
  end.

Definition start (fetched : FetchOutcome) (socket : SocketOutcome) : Action :=
  loadSnapshot fetched >>> openSocket socket.

Definition onopen : Action :=
  setConnectionStatus ConnectionStatus.connected >>> setError None.

Definition onmessage (data : string) : Action :=
  match JSON_parse data with
  | Some msg =>
      emit (SetRatesUpdate msg) >>> setRates (λ prev, appendHistoryPoint prev msg)
  | None => skip (* console.error *)
  end.

Definition onerror : Action :=
  setConnectionStatus ConnectionStatus.error >>>
  setError (Some "WebSocket connection error.").

Definition onclose : Action :=
  setConnectionStatus ConnectionStatus.closed.

(** One event delivered to the hook; [None] when the event cannot occur:
    while [start] waits for the snapshot there is no socket, so none of its
    events; and the fetch settles once. *)
Definition step (h : Hook) (e : Event) : option Hook :=
  match phase h, e with
  | AwaitingSnapshot, SnapshotSettled fetched socket => Some (start fetched socket h)
  | Streaming, Open => Some (onopen h)
  | Streaming, Message data => Some (onmessage data h)
  | Streaming, Error => Some (onerror h)
  | Streaming, Close => Some (onclose h)
  | _, _ => None
  end.

Fixpoint run (h : Hook) (events : list Event) : option Hook :=
  match events with
  | [] => Some h
  | e :: events =>
      match step h e with
      | Some h' => run h' events
      | None => None
      end
  end.

(** The updates that the message handler merges over a sequence of events. *)
Definition mergedUpdates (events : list Event) : list RateUpdateMessage.t :=
  omap (λ e, match e with Message data => JSON_parse data | _ => None end) events.

End Hook.

(** The [setRates] calls among the effects. *)
Definition is_setRates (e : Effect) : bool :=
  match e with NewWebSocket => false | _ => true end.

Definition ratesCalls (l : list Effect) : list Effect :=
  filter (λ e, is_setRates e) l.

(** *** The events that set the status and the error *)

(** What the handler of an event passes to [setConnectionStatus], and what it
    passes to [setError]; [None] when it does not call the setter. *)
Definition statusSet (e : Event) : option ConnectionStatus.t :=
  match e with
  | Open => Some ConnectionStatus.connected
  | Error => Some ConnectionStatus.error
  | Close => Some ConnectionStatus.closed
  | _ => None
  end.

Definition errorSet (e : Event) : option (option string) :=
  match e with
  | Open => Some None
  | Error => Some (Some "WebSocket connection error.")
  | _ => None
  end.

(** The error that the first part of [start] leaves. *)
Definition snapshotError (fetched : FetchOutcome) : option string :=
  match fetched with
  | Resolved _ => None
  | Rejected => Some "Failed to load initial rates."
  end.

(** *** The cleanup of the effect *)

(** [WebSocket.readyState]. *)
Inductive ReadyState := CONNECTING | OPEN | CLOSING | CLOSED.

(** The effect over the life of the component: the hook, the variable [ws]
    of the closure (null, or the socket, with its [readyState]), the number
    of [ws.close()] calls made, and whether the cleanup has run. *)
Record Mount := mkMount {
  hook : Hook;
  ws : option ReadyState;
  closeCalls : nat;
  cleanedUp : bool;
}.

Definition mountedEffect : Mount := mkMount mounted None 0 false.

(** The function that the effect returns:
    [if (ws && ws.readyState === WebSocket.OPEN) ws.close()]; [close] puts
    the socket in the state [CLOSING]. *)
Definition cleanup (m : Mount) : Mount :=
  match ws m with
  | Some OPEN => mkMount (hook m) (Some CLOSING) (S (closeCalls m)) true
  | _ => mkMount (hook m) (ws m) (closeCalls m) true
  end.

(** The [readyState] that the WebSocket API gives the socket when an event
    is delivered: [CONNECTING] out of the constructor, [OPEN] at the open
    event, [CLOSED] at the error and close events. *)
Definition readyStateAfter (e : Event) (ws : option ReadyState)
  : option ReadyState :=
  match e with
  | SnapshotSettled _ Constructed => Some CONNECTING
  | SnapshotSettled _ Threw => None
  | Open => Some OPEN
  | Error | Close => Some CLOSED
  | Message _ => ws
  end.

(** What happens to a mounted component: an event of the browser, or the
    unmount, which runs the cleanup. *)
Inductive LifeEvent := Browser (e : Event) | Unmount.

Section Life.

Variable JSON_parse : string → option RateUpdateMessage.t.

(** One event in the life of the component.  [start] and the handlers run
    after the unmount as before it (nothing cancels them), but React drops
    the state updates of an unmounted component: the three cells keep their
    values.  The cleanup runs once.  Events are accepted in any order the
    hook accepts them, a superset of what a browser delivers. *)
Definition lifeStep (m : Mount) (e : LifeEvent) : option Mount :=
  match e with
  | Browser e =>
      match step JSON_parse (hook m) e with
      | Some h' =>
          Some (mkMount
                  (if cleanedUp m
                   then mkHook (result (hook m)) (phase h') (effects h')
                   else h')
                  (readyStateAfter e (ws m)) (closeCalls m) (cleanedUp m))
      | None => None
      end
  | Unmount => if cleanedUp m then None else Some (cleanup m)
  end.

Fixpoint lifeRun (m : Mount) (events : list LifeEvent) : option Mount :=
  match events with
  | [] => Some m
  | e :: events =>
      match lifeStep m e with
      | Some m' => lifeRun m' events
      | None => None
      end
  end.

End Life.

(** *** What the history of a pair keeps true

    The history has at most [MAX_POINTS] entries, and when it is not empty
    its last point carries the [last_update] and the [price] of the pair. *)
Definition historyBounded (p : PairState.t) : Prop :=
  length (PairState.history p) ≤ MAX_POINTS.

Definition historyAgrees (p : PairState.t) : Prop :=
  match last (PairState.history p) with
  | Some point =>
      PairState.price p = Some (PricePoint.price point) ∧
      PairState.last_update p = Some (PricePoint.timestamp point)
  | None => True
  end.

End RatesStream.

(** ** components/MiniChart/MiniChart.tsx *)

Module MiniChart.

Local Open Scope float_scope.

Definition width : float := 260.
Definition height : float := 60.

(** [ToBoolean] of a number: false for [+0], [-0] and [NaN] only. *)
Definition truthy (x : float) : bool := negb (is_zero x || is_nan x).

(** [a || b] on numbers. *)
Definition or_else (a b : float) : float := if truthy a then a else b.

Definition is_neg_zero (x : float) : bool :=
  match classify x with NZero => true | _ => false end.

Definition is_pos_zero (x : float) : bool :=
  match classify x with PZero => true | _ => false end.

(** [Math.min(...values)] as ECMAScript defines it: from [+Infinity], a NaN
    argument makes the result NaN, [-0] is below [+0]. *)
Fixpoint min_from (lowest : float) (coerced : list float) : float :=
  match coerced with
  | [] => lowest
  | number :: coerced =>
      if is_nan number then nan
      else
        let lowest :=
          if is_neg_zero number && is_pos_zero lowest then neg_zero else lowest in
        let lowest := if number <? lowest then number else lowest in
        min_from lowest coerced
  end.

Definition Math_min (values : list float) : float := min_from infinity values.

(** [Math.max(...values)], from [-Infinity], [+0] above [-0]. *)
Fixpoint max_from (highest : float) (coerced : list float) : float :=
  match coerced with
  | [] => highest
  | number :: coerced =>
      if is_nan number then nan
      else
        let highest :=
          if is_pos_zero number && is_neg_zero highest then zero else highest in
        let highest := if highest <? number then number else highest in
        max_from highest coerced
  end.

Definition Math_max (values : list float) : float := max_from neg_infinity values.

(** An array length or index as a number (exact: lengths are below 2^32). *)
Definition of_index (n : nat) : float := of_uint63 (Uint63.of_Z (Z.of_nat n)).

Definition prices (points : list PricePoint.t) : list float :=
  PricePoint.price <$> points.

Definition min (points : list PricePoint.t) : float := Math_min (prices points).

Definition max (points : list PricePoint.t) : float :=
  or_else (Math_max (prices points)) 1.

Definition range (points : list PricePoint.t) : float :=
  or_else (max points - min points) 1.

Definition stepX (points : list PricePoint.t) : float :=
  if decide (1 < length points)%nat
  then width / of_index (length points - 1)
  else width.

(** The callback of [points.map]: the pair that the template literal
    [`${x},${y}`] prints. *)
Definition coordinate (points : list PricePoint.t) (index : nat)
    (p : PricePoint.t) : float * float :=
  let x := of_index index * stepX points in
  let normalized := (PricePoint.price p - min points) / range points in
  let y := height - normalized * height in
  (x, y).

Definition path (points : list PricePoint.t) : list (float * float) :=
  imap (coordinate points) points.

(** A value of the format that is a zero or a finite number, neither NaN nor
    an infinity. *)
Definition fin (x : spec_float) : bool :=
  match x with S754_zero _ | S754_finite _ _ _ => true | _ => false end.

(** The component: [None] is the "Waiting for data" placeholder returned for
    an empty array, [Some] the points of the polyline. *)
Definition MiniChart (points : list PricePoint.t) : option (list (float * float)) :=
  if decide (length points = 0%nat) then None else Some (path points).

End MiniChart.

(** ** pages/Dashboard/Dashboard.tsx *)

Module Dashboard.

(** What one [rate-card] shows: the title, the chart of [MiniChart], and the
    texts of the three rows. *)
Record RateCard := mkCard {
  title : string;
  chart : option (list (float * float));
  priceText : string;
  hourlyAvgText : string;
  lastUpdateText : string;
}.

(** What the page shows: the status, the error paragraph when there is one,
    and the cards of the grid in order. *)
Record Page := mkPage {
  statusText : RatesStream.ConnectionStatus.t;
  errorText : option string;
  cards : list RateCard;
}.

Section View.

(** [x.toFixed(2)] and [new Date(s).toLocaleString()], which the page calls
    and does not define. *)
Variable toFixed2 : float → string.
Variable toLocaleString : string → string.

(** [value !== null && value !== undefined ? value.toFixed(2) : '--']. *)
Definition numberText (value : option float) : string :=
  match value with
  | Some x => toFixed2 x
  | None => "--"
  end.

(** [rate.last_update ? new Date(rate.last_update).toLocaleString() : '--']:
    null and the empty string are falsy. *)
Definition dateText (value : option string) : string :=
  match value with
  | Some s => if decide (s = "") then "--" else toLocaleString s
  | None => "--"
  end.

Definition rateCard (rate : PairState.t) : RateCard :=
  mkCard (PairState.pair rate)
         (MiniChart.MiniChart (PairState.history rate))
         (numberText (PairState.price rate))
         (numberText (PairState.hourly_avg rate))
         (dateText (PairState.last_update rate)).

(** [{error && <p>{error}</p>}]: nothing for null and for the empty string. *)
Definition errorParagraph (error : option string) : option string :=
  match error with
  | Some e => if decide (e = "") then None else Some e
  | None => None
  end.

Definition Dashboard (r : RatesStream.UseRatesStreamResult) : Page :=
  mkPage (RatesStream.connectionStatus r)
         (errorParagraph (RatesStream.error r))
         (rateCard <$> RatesStream.rates r).

End View.

End Dashboard.

(** ** The aggregator of the backend

    The backend (the Pair State Store and the Hourly Rollover Engine of the
    specification, sections 3, 4.1 and 4.2) is not among the sources; this
    module follows the specification's text.  Timestamps are seconds, as
    integers; decimals are rationals. *)

Module Aggregator.

Local Open Scope Z_scope.

(** Modelled from the spec: the Tick of section 3, [{pair, price,
    observed_at}]; the backend that produces it is missing. *)
Record Tick := mkTick {
  tick_pair : string;
  tick_price : Q;
  observed_at : Z;
}.

(** Modelled from the spec: the PairState of section 3 (backend code
    missing); an absent field is [None]. *)
Record PairState := mkPairState {
  pair : string;
  last_price : option Q;
  hourly_average : option Q;
  hour_started_at : option Z;
  last_update : option Z;
  recent_history : list (Z * Q);
}.

(** Modelled from the spec: the hour bucket of section 3, the accumulator
    behind the hourly average (backend code missing). *)
Record Bucket := mkBucket {
  sum_of_prices : Q;
  tick_count : nat;
  bucket_start : Z;
}.

(** Modelled from the spec: what the Pair State Store (missing) holds for one
    pair: its state and, once a tick was applied, its bucket. *)
Record Entry := mkEntry {
  state : PairState;
  bucket : option Bucket;
}.

(** Modelled from the spec: one hour, in seconds (the unit is not fixed by
    the specification). *)
Definition ONE_HOUR : Z := 3600.

(** Modelled from the spec: the bound of [recent_history], section 3. *)
Definition MAX_HISTORY : nat := 40.

(** Modelled from the spec: the decision function of the Hourly Rollover
    Engine (missing), section 4.2: true iff [observed_at - bucket_start < 1
    hour] and [observed_at >= bucket_start]. *)
Definition continues_bucket (bucket_start observed_at : Z) : bool :=
  (observed_at - bucket_start <? ONE_HOUR) && (bucket_start <=? observed_at).

(** Modelled from the spec: the rejection rule of [apply_tick] (missing),
    section 4.1: a non-positive price, or a timestamp earlier than the
    pair's [last_update]. *)
Definition rejected (e : option Entry) (tick : Tick) : bool :=
  Qle_bool (tick_price tick) 0
  || match e ≫= (λ e, last_update (state e)) with
     | Some lu => observed_at tick <? lu
     | None => false
     end.

(** Modelled from the spec: the bucket after a tick, sections 4.1 and 4.2
    (code missing): the current bucket with the price added when the tick
    continues it, else a bucket of this one tick starting at its time. *)
Definition next_bucket (b : option Bucket) (tick : Tick) : Bucket :=
  let fresh := mkBucket (tick_price tick) 1 (observed_at tick) in
  match b with
  | Some b =>
      if continues_bucket (bucket_start b) (observed_at tick)
      then mkBucket (sum_of_prices b + tick_price tick)%Q (S (tick_count b))
                    (bucket_start b)
      else fresh
  | None => fresh
  end.

(** Modelled from the spec: the trimming of [recent_history] from the front
    once it exceeds 40 entries, section 4.1 (code missing). *)
Definition trim (h : list (Z * Q)) : list (Z * Q) :=
  drop (length h - MAX_HISTORY)%nat h.

(** Modelled from the spec: [apply_tick] of the Pair State Store (missing),
    section 4.1: look up or create the pair's bucket, continue or reset it,
    recompute the average, set [last_price] and [last_update], append to the
    history and trim it.  A rejected tick leaves the store as it is. *)
Definition apply_tick (store : gmap string Entry) (tick : Tick)
  : gmap string Entry :=
  let e := store !! tick_pair tick in
  if rejected e tick then store
  else
    let b := next_bucket (e ≫= bucket) tick in
    let h := from_option (λ e, recent_history (state e)) [] e in
    <[tick_pair tick :=
        mkEntry
          (mkPairState (tick_pair tick)
             (Some (tick_price tick))
             (Some (sum_of_prices b / inject_Z (Z.of_nat (tick_count b)))%Q)
             (Some (bucket_start b))
             (Some (observed_at tick))
             (trim (h ++ [(observed_at tick, tick_price tick)])))
          (Some b)]> store.

(** Modelled from the spec: a sequence of ticks applied in order by the
    single writer of section 5 (code missing). *)
Definition apply_ticks (store : gmap string Entry) (ticks : list Tick)
  : gmap string Entry :=
  foldl apply_tick store ticks.

(** Modelled from the spec: the hourly average the store (missing) shows for
    a pair, absent when the pair is unknown or has seen no tick. *)
Definition hourly_average_of (store : gmap string Entry) (k : string) : option Q :=
  store !! k ≫= (λ e, hourly_average (state e)).

(** Modelled from the spec: the arithmetic mean of the testable property of
    section 8, the sum of the prices over their number. *)
Definition mean (prices : list Q) : Q :=
  (foldr Qplus 0 prices / inject_Z (Z.of_nat (length prices)))%Q.

(** Modelled from the spec: a pair that has seen no tick yet: unknown to the
    store (missing), or pre-seeded with its fields absent. *)
Definition unseen (store : gmap string Entry) (k : string) : Prop :=
  match store !! k with
  | None => True
  | Some e => bucket e = None ∧ last_update (state e) = None
  end.

(** Modelled from the spec: a tick that opens the hour of its pair in the
    store (missing): the pair has seen no tick, or the tick is not older
    than the pair's last update and does not continue its current bucket
    (section 4.2). *)
Definition starts_bucket (store : gmap string Entry) (tick : Tick) : Prop :=
  match store !! tick_pair tick with
  | None => True
  | Some e =>
      from_option (λ lu, lu ≤ observed_at tick) True (last_update (state e)) ∧
      from_option
        (λ b, continues_bucket (bucket_start b) (observed_at tick) = false)
        True (bucket e)
  end.

(** Modelled from the spec: the invariant of the hour bucket, section 3:
    the entry of a pair (store code missing) has the bucket [b], was last
    updated at [lu], and its [hourly_average] is [sum_of_prices / tick_count]. *)
Definition tracks (e : Entry) (b : Bucket) (lu : Z) : Prop :=
  bucket e = Some b ∧
  last_update (state e) = Some lu ∧
  hourly_average (state e)
    = Some (sum_of_prices b / inject_Z (Z.of_nat (tick_count b)))%Q.

(** Modelled from the spec: "strictly increasing timestamps" of the testable
    property of section 8, as a test on a sequence of ticks. *)
Fixpoint increasing_from (t : Z) (ticks : list Tick) : bool :=
  match ticks with
  | [] => true
  | x :: ticks => (t <? observed_at x) && increasing_from (observed_at x) ticks
  end.

Definition strictly_increasing (ticks : list Tick) : bool :=
  match ticks with
  | [] => true
  | x :: ticks => increasing_from (observed_at x) ticks
  end.

(** Modelled from the spec: "same-hour timestamps" of section 8: every tick
    lies in the hour that the first tick starts, the rolling window that
    section 4.2 and the first design note adopt. *)
Definition within_hour_of (start : Z) (ticks : list Tick) : bool :=
  forallb (λ t, observed_at t - start <? ONE_HOUR) ticks.

Definition same_hour (ticks : list Tick) : bool :=
  match ticks with
  | [] => true
  | x :: ticks => within_hour_of (observed_at x) ticks
  end.

(** Modelled from the spec: the ticks are those of one pair, with the
    positive price that section 3 gives every Tick. *)
Definition ticks_of (k : string) (ticks : list Tick) : bool :=
  forallb (λ t, bool_decide (tick_pair t = k)
                && negb (Qle_bool (tick_price t) 0)) ticks.

End Aggregator.

(** ** Sample data, used to run the definitions *)

Module Sample.

Definition eth_usd : PairState.t :=
  PairState.mk "ETH/USD" (Some 100%float) (Some 100%float)
    (Some "2025-01-01T10:00:00Z") [].

Definition eth_btc : PairState.t :=
  PairState.mk "ETH/BTC" None None None [].

(** A snapshot entry that carries a history of its own. *)
Definition eth_eur : PairState.t :=
  PairState.mk "ETH/EUR" (Some 90%float) (Some 91%float)
    (Some "2025-01-01T10:00:00Z")
    [PricePoint.mk "2025-01-01T09:59:00Z" 89%float].

Definition usd_110 : RateUpdateMessage.t :=
  RateUpdateMessage.mk "ETH/USD" 110%float 105%float "2025-01-01T10:00:05Z".

Definition usd_120 : RateUpdateMessage.t :=
  RateUpdateMessage.mk "ETH/USD" 120%float 110%float "2025-01-01T10:00:10Z".

Definition btc_1 : RateUpdateMessage.t :=
  RateUpdateMessage.mk "ETH/BTC" 0.5%float 0.5%float "2025-01-01T10:00:07Z".

Definition eur_95 : RateUpdateMessage.t :=
  RateUpdateMessage.mk "ETH/EUR" 95%float 92%float "2025-01-01T10:00:09Z".

Definition doge_1 : RateUpdateMessage.t :=
  RateUpdateMessage.mk "ETH/DOGE" 7%float 7%float "2025-01-01T10:00:08Z".

(** The update number [k] of a run of updates for ETH/USD. *)
Definition usd_at (k : nat) : RateUpdateMessage.t :=
  RateUpdateMessage.mk "ETH/USD" (MiniChart.of_index k) (MiniChart.of_index k)
    (pretty k).

(** Three points of a rising price, and two points of a flat one. *)
Definition rising : list PricePoint.t :=
  [PricePoint.mk "2025-01-01T10:00:00Z" 100%float;
   PricePoint.mk "2025-01-01T10:00:05Z" 110%float;
   PricePoint.mk "2025-01-01T10:00:10Z" 120%float].

Definition flat : list PricePoint.t :=
  [PricePoint.mk "2025-01-01T10:00:00Z" 100%float;
   PricePoint.mk "2025-01-01T10:00:05Z" 100%float].

(** The end-to-end example of the specification: three ticks for ETH/USD
    within one hour, at prices 100, 110 and 120. *)
Definition three_ticks : list Aggregator.Tick :=
  [Aggregator.mkTick "ETH/USD" 100 0;
   Aggregator.mkTick "ETH/USD" 110 10;
   Aggregator.mkTick "ETH/USD" 120 20].

(** Two ticks for ETH/USD more than an hour apart. *)
Definition two_hours : list Aggregator.Tick :=
  [Aggregator.mkTick "ETH/USD" 100 0;
   Aggregator.mkTick "ETH/USD" 200 4000].

(** A parser that knows two payloads and throws on every other one. *)
Definition parse (data : string) : option RateUpdateMessage.t :=
  if decide (data = "usd_110") then Some usd_110
  else if decide (data = "btc_1") then Some btc_1
  else None.

(** The largest finite numbers are beyond it by less than a factor of 2. *)
Definition huge : float := 0x1.e42d130773b76p+1023%float.

(** A point of the chart at a given price. *)
Definition point_at (v : float) : PricePoint.t := PricePoint.mk "t" v.

(** Stand-ins for the two formatting functions of the browser. *)
Definition toFixed2 (x : float) : string :=
  if PrimFloat.eqb x 110 then "110.00" else "0.00".

Definition toLocaleString (s : string) : string := s.

End Sample.

(** * Properties *)

(** ** The history of a pair *)

Section History.

Import RatesStream.

Lemma lastN_all {A} (n : nat) (l : list A) : length l ≤ n → lastN n l = l.
Proof.
  intros Hle. unfold lastN.
  replace (length l - n) with 0 by lia. reflexivity.
Qed.

Lemma length_lastN {A} (n : nat) (l : list A) :
  length (lastN n l) = Nat.min n (length l).
Proof. unfold lastN. rewrite length_drop. lia. Qed.

Lemma lastN_app_r {A} (n : nat) (l1 l2 : list A) :
  n ≤ length l2 → lastN n (l1 ++ l2) = lastN n l2.
Proof.
  intros Hle. unfold lastN. rewrite length_app.
  replace (length l1 + length l2 - n) with (length l1 + (length l2 - n)) by lia.
  apply drop_app_add.
Qed.

(** Trimming an already trimmed list after new elements were appended is
    trimming the whole. *)
Lemma lastN_lastN_app {A} (n : nat) (l1 l2 : list A) :
  lastN n (lastN n l1 ++ l2) = lastN n (l1 ++ l2).
Proof.
  destruct (decide (length l1 ≤ n)) as [Hle|Hgt].
  - by rewrite (lastN_all n l1).
  - unfold lastN at 1 3. rewrite !length_app, length_lastN.
    replace (Nat.min n (length l1) + length l2 - n) with (length l2) by lia.
    replace (length l1 + length l2 - n)
      with ((length l1 - n) + length l2) by lia.
    rewrite <- drop_drop. f_equal.
    unfold lastN. rewrite drop_app_le by lia. reflexivity.
Qed.

Lemma trimHistory_lastN (h : list PricePoint.t) :
  trimHistory h = lastN MAX_POINTS h.
Proof.
  unfold trimHistory, splice_front. case_decide; [reflexivity|].
  symmetry. apply lastN_all. lia.
Qed.

Lemma mergeUpdate_other (u : RateUpdateMessage.t) (p : PairState.t) :
  PairState.pair p ≠ RateUpdateMessage.pair u → mergeUpdate u p = p.
Proof. intros Hne. unfold mergeUpdate. by rewrite decide_True. Qed.

Lemma mergeUpdate_own (u : RateUpdateMessage.t) (p : PairState.t) :
  PairState.pair p = RateUpdateMessage.pair u →
  mergeUpdate u p =
    PairState.mk (PairState.pair p)
      (Some (RateUpdateMessage.price u))
      (Some (RateUpdateMessage.hourly_avg u))
      (Some (RateUpdateMessage.last_update u))
      (lastN MAX_POINTS (PairState.history p ++ [pointOf u])).
Proof.
  intros Heq. unfold mergeUpdate.
  rewrite decide_False by (intros Hne; by apply Hne).
  by rewrite trimHistory_lastN.
Qed.

Lemma mergeUpdate_pair (u : RateUpdateMessage.t) (p : PairState.t) :
  PairState.pair (mergeUpdate u p) = PairState.pair p.
Proof. unfold mergeUpdate. by case_decide. Qed.

Lemma mergeUpdates_pair (us : list RateUpdateMessage.t) (p : PairState.t) :
  PairState.pair (mergeUpdates p us) = PairState.pair p.
Proof.
  revert p. induction us as [|u us IH]; intros p; [reflexivity|].
  simpl. unfold mergeUpdates in IH. rewrite IH. apply mergeUpdate_pair.
Qed.

(** The updates run over the array pair by pair. *)
Lemma applyUpdates_fmap (us : list RateUpdateMessage.t) (cur : list PairState.t) :
  applyUpdates cur us = (λ p, mergeUpdates p us) <$> cur.
Proof.
  revert cur. induction us as [|u us IH]; intros cur; simpl.
  - symmetry. apply list_fmap_id.
  - unfold applyUpdates in *. simpl. rewrite IH.
    unfold appendHistoryPoint. rewrite <- list_fmap_compose.
    apply list_fmap_ext. intros ? p ?. reflexivity.
Qed.

Lemma applyUpdates_lookup (us : list RateUpdateMessage.t)
    (cur : list PairState.t) (i : nat) :
  applyUpdates cur us !! i = (λ p, mergeUpdates p us) <$> (cur !! i).
Proof. rewrite applyUpdates_fmap. apply list_lookup_fmap. Qed.

(** Only the updates addressed to a pair change it. *)
Lemma mergeUpdates_own (us : list RateUpdateMessage.t) (p : PairState.t) :
  mergeUpdates p us = mergeUpdates p (ownUpdates p us).
Proof.
  revert p. induction us as [|u us IH]; intros p; [reflexivity|].
  unfold ownUpdates. rewrite filter_cons. case_decide as Hu.
  - simpl. fold (mergeUpdates (mergeUpdate u p) us).
    rewrite IH. unfold ownUpdates. by rewrite mergeUpdate_pair.
  - simpl. fold (mergeUpdates (mergeUpdate u p) us).
    rewrite mergeUpdate_other by (intros Heq; by apply Hu).
    apply IH.
Qed.

Lemma applyUpdates_lookup_own (us : list RateUpdateMessage.t)
    (cur : list PairState.t) (i : nat) (p : PairState.t) :
  cur !! i = Some p →
  applyUpdates cur us !! i = Some (mergeUpdates p (ownUpdates p us)).
Proof.
  intros Hi. rewrite applyUpdates_lookup, Hi. simpl.
  by rewrite <- mergeUpdates_own.
Qed.

Lemma mergeUpdates_snoc (us : list RateUpdateMessage.t)
    (u : RateUpdateMessage.t) (p : PairState.t) :
  mergeUpdates p (us ++ [u]) = mergeUpdate u (mergeUpdates p us).
Proof. unfold mergeUpdates. by rewrite foldl_app. Qed.

(** The history after a non-empty sequence of updates, all addressed to the
    pair. *)
Lemma mergeUpdates_history (us : list RateUpdateMessage.t) (p : PairState.t) :
  us ≠ [] →
  Forall (λ u, RateUpdateMessage.pair u = PairState.pair p) us →
  PairState.history (mergeUpdates p us)
  = lastN MAX_POINTS (PairState.history p ++ (pointOf <$> us)).
Proof.
  induction us as [|u us IH] using rev_ind; [done|].
  intros _ Hall. apply Forall_app in Hall as [Hus Hu].
  rewrite Forall_singleton in Hu.
  rewrite mergeUpdates_snoc, mergeUpdate_own
    by (rewrite mergeUpdates_pair; symmetry; exact Hu).
  simpl. rewrite fmap_app. simpl.
  destruct us as [|u0 us'].
  - simpl. reflexivity.
  - rewrite IH by done. rewrite lastN_lastN_app. by rewrite <- app_assoc.
Qed.

Lemma ownUpdates_Forall (p : PairState.t) (us : list RateUpdateMessage.t) :
  Forall (λ u, RateUpdateMessage.pair u = PairState.pair p) (ownUpdates p us).
Proof.
  apply Forall_forall. intros u Hu.
  unfold ownUpdates in Hu. by apply list_elem_of_filter in Hu as [? _].
Qed.

End History.

(** ** [fromSnapshot] and [appendHistoryPoint] *)

Section Rates.

Import RatesStream.

(** C9. [fromSnapshot] keeps the length and the order of the snapshot: the
    entry at each index has the [pair], [price], [hourly_avg] and
    [last_update] of the snapshot entry at that index, and an empty
    [history], whatever history the snapshot entry carried. *)
Theorem fromSnapshot_copies_fields_empty_history (snapshot : list PairState.t) :
  length (fromSnapshot snapshot) = length snapshot ∧
  ∀ (i : nat) (s : PairState.t), snapshot !! i = Some s →
    ∃ p, fromSnapshot snapshot !! i = Some p ∧
      PairState.pair p = PairState.pair s ∧
      PairState.price p = PairState.price s ∧
      PairState.hourly_avg p = PairState.hourly_avg s ∧
      PairState.last_update p = PairState.last_update s ∧
      PairState.history p = [].
Proof.
  unfold fromSnapshot. split; [apply length_fmap|].
  intros i s Hs. rewrite list_lookup_fmap, Hs. simpl.
  eexists. split; [reflexivity|]. simpl. done.
Qed.

(** C3. When the pair at an index matches the pair of the update,
    [appendHistoryPoint] puts at that index a pair with the same symbol whose
    [price], [hourly_avg] and [last_update] are those of the message, and
    whose history is the old history with the point [(last_update, price)]
    appended at its end and then trimmed; the point is the last entry of the
    new history. *)
Theorem appendHistoryPoint_sets_fields_and_appends
    (current : list PairState.t) (update : RateUpdateMessage.t)
    (i : nat) (pair : PairState.t) :
  current !! i = Some pair →
  PairState.pair pair = RateUpdateMessage.pair update →
  ∃ pair', appendHistoryPoint current update !! i = Some pair' ∧
    PairState.pair pair' = PairState.pair pair ∧
    PairState.price pair' = Some (RateUpdateMessage.price update) ∧
    PairState.hourly_avg pair' = Some (RateUpdateMessage.hourly_avg update) ∧
    PairState.last_update pair' = Some (RateUpdateMessage.last_update update) ∧
    PairState.history pair'
      = trimHistory (PairState.history pair ++
          [PricePoint.mk (RateUpdateMessage.last_update update)
                         (RateUpdateMessage.price update)]) ∧
    last (PairState.history pair')
      = Some (PricePoint.mk (RateUpdateMessage.last_update update)
                            (RateUpdateMessage.price update)).
Proof.
  intros Hi Hpair. unfold appendHistoryPoint.
  rewrite list_lookup_fmap, Hi. simpl.
  eexists. split; [reflexivity|].
  rewrite mergeUpdate_own by done. simpl.
  repeat split; try done.
  - by rewrite trimHistory_lastN.
  - unfold lastN. rewrite length_app. simpl.
    rewrite drop_app_le by (unfold MAX_POINTS; lia).
    apply last_snoc.
Qed.

Lemma fromSnapshot_copies_fields_empty_history_witness :
  ∃ p, fromSnapshot [Sample.eth_usd; Sample.eth_eur] !! 1 = Some p ∧
    PairState.pair p = "ETH/EUR" ∧
    PairState.price p = Some 90%float ∧
    PairState.hourly_avg p = Some 91%float ∧
    PairState.last_update p = Some "2025-01-01T10:00:00Z" ∧
    PairState.history p = [].
Proof.
  apply (proj2 (fromSnapshot_copies_fields_empty_history
                  [Sample.eth_usd; Sample.eth_eur]) 1 Sample.eth_eur).
  reflexivity.
Defined.

Lemma appendHistoryPoint_sets_fields_and_appends_witness :
  ∃ pair', appendHistoryPoint [Sample.eth_btc; Sample.eth_usd] Sample.usd_110 !! 1
           = Some pair' ∧
    PairState.pair pair' = "ETH/USD" ∧
    PairState.price pair' = Some 110%float ∧
    PairState.hourly_avg pair' = Some 105%float ∧
    PairState.last_update pair' = Some "2025-01-01T10:00:05Z" ∧
    PairState.history pair'
      = trimHistory ([] ++ [PricePoint.mk "2025-01-01T10:00:05Z" 110%float]) ∧
    last (PairState.history pair')
      = Some (PricePoint.mk "2025-01-01T10:00:05Z" 110%float).
Proof.
  apply (appendHistoryPoint_sets_fields_and_appends
           [Sample.eth_btc; Sample.eth_usd] Sample.usd_110 1 Sample.eth_usd);
    reflexivity.
Defined.

(** C2. [appendHistoryPoint] returns unchanged every pair whose symbol
    differs from the pair of the message; and over a sequence of updates the
    state of the pair at an index is the state reached from its own initial
    state by its own sub-sequence of updates alone, whatever updates for
    other pairs are interleaved with it. *)
Theorem appendHistoryPoint_frame
    (current : list PairState.t) (i : nat) (pair : PairState.t) :
  current !! i = Some pair →
  (∀ update : RateUpdateMessage.t,
     PairState.pair pair ≠ RateUpdateMessage.pair update →
     appendHistoryPoint current update !! i = Some pair) ∧
  (∀ updates : list RateUpdateMessage.t,
     applyUpdates current updates !! i
       = Some (mergeUpdates pair (ownUpdates pair updates)) ∧
     applyUpdates current updates !! i
       = applyUpdates current (ownUpdates pair updates) !! i).
Proof.
  intros Hi. split.
  - intros update Hne. unfold appendHistoryPoint.
    rewrite list_lookup_fmap, Hi. simpl. by rewrite mergeUpdate_other.
  - intros updates. split; [by apply applyUpdates_lookup_own|].
    rewrite !applyUpdates_lookup, Hi. simpl.
    by rewrite <- mergeUpdates_own.
Qed.

Lemma appendHistoryPoint_frame_witness :
  (∀ update : RateUpdateMessage.t,
     "ETH/BTC" ≠ RateUpdateMessage.pair update →
     appendHistoryPoint [Sample.eth_btc; Sample.eth_usd] update !! 0
       = Some Sample.eth_btc) ∧
  (∀ updates : list RateUpdateMessage.t,
     applyUpdates [Sample.eth_btc; Sample.eth_usd] updates !! 0
       = Some (mergeUpdates Sample.eth_btc (ownUpdates Sample.eth_btc updates)) ∧
     applyUpdates [Sample.eth_btc; Sample.eth_usd] updates !! 0
       = applyUpdates [Sample.eth_btc; Sample.eth_usd]
           (ownUpdates Sample.eth_btc updates) !! 0).
Proof.
  apply (appendHistoryPoint_frame [Sample.eth_btc; Sample.eth_usd] 0 Sample.eth_btc).
  reflexivity.
Defined.

(** C1. After any sequence of updates, the history of a pair of the state is
    made of the most recent (at most 40) points appended to it, in arrival
    order, the oldest evicted first: it is the last 40 entries of what the
    history held before followed by the points [(last_update, price)] of the
    updates addressed to the pair.  So it has at most 40 entries once an
    update was applied to the pair (and at every step if it had at most 40
    before); and it is the last 40 points of the sequence itself when the
    history was empty before, as after [fromSnapshot], or when the sequence
    appends 40 points or more. *)
Theorem history_is_last_MAX_POINTS_appended
    (current : list PairState.t) (updates : list RateUpdateMessage.t)
    (i : nat) (pair : PairState.t) :
  current !! i = Some pair →
  ∃ pair', applyUpdates current updates !! i = Some pair' ∧
    let own := ownUpdates pair updates in
    (own ≠ [] →
       PairState.history pair'
         = lastN MAX_POINTS (PairState.history pair ++ (pointOf <$> own)) ∧
       length (PairState.history pair') ≤ 40) ∧
    (length (PairState.history pair) ≤ 40 →
       length (PairState.history pair') ≤ 40) ∧
    (PairState.history pair = [] ∨ 40 ≤ length own →
       PairState.history pair' = lastN 40 (pointOf <$> own)).
Proof.
  intros Hi. exists (mergeUpdates pair (ownUpdates pair updates)).
  split; [by apply applyUpdates_lookup_own|].
  intros own. subst own. set (own := ownUpdates pair updates).
  assert (Hown : own ≠ [] →
    PairState.history (mergeUpdates pair own)
      = lastN MAX_POINTS (PairState.history pair ++ (pointOf <$> own))).
  { intros Hne. apply mergeUpdates_history; [done|apply ownUpdates_Forall]. }
  assert (Hnil : own = [] → mergeUpdates pair own = pair).
  { intros ->. reflexivity. }
  split; [|split].
  - intros Hne. split; [by apply Hown|].
    rewrite Hown, length_lastN by done. unfold MAX_POINTS. lia.
  - intros Hlen. destruct (decide (own = [])) as [Heq|Hne].
    + by rewrite Hnil.
    + rewrite Hown, length_lastN by done. unfold MAX_POINTS. lia.
  - intros Hcase. destruct (decide (own = [])) as [Heq|Hne].
    + rewrite Hnil by done. rewrite Heq in *. simpl in *.
      destruct Hcase as [->|Hlen]; [reflexivity|lia].
    + rewrite Hown by done. destruct Hcase as [->|Hlen]; [reflexivity|].
      apply lastN_app_r. rewrite length_fmap. unfold MAX_POINTS. lia.
Qed.

Lemma history_is_last_MAX_POINTS_appended_witness :
  ∃ pair',
    applyUpdates [Sample.eth_btc; Sample.eth_usd]
      [Sample.usd_110; Sample.btc_1; Sample.usd_120] !! 1 = Some pair' ∧
    let own :=
      ownUpdates Sample.eth_usd [Sample.usd_110; Sample.btc_1; Sample.usd_120] in
    (own ≠ [] →
       PairState.history pair'
         = lastN MAX_POINTS (PairState.history Sample.eth_usd ++ (pointOf <$> own)) ∧
       length (PairState.history pair') ≤ 40) ∧
    (length (PairState.history Sample.eth_usd) ≤ 40 →
       length (PairState.history pair') ≤ 40) ∧
    (PairState.history Sample.eth_usd = [] ∨ 40 ≤ length own →
       PairState.history pair' = lastN 40 (pointOf <$> own)).
Proof.
  apply (history_is_last_MAX_POINTS_appended
           [Sample.eth_btc; Sample.eth_usd]
           [Sample.usd_110; Sample.btc_1; Sample.usd_120] 1 Sample.eth_usd).
  reflexivity.
Defined.

(** The test of the specification: 45 points inserted for a pair, the stored
    history is the last 40 of them in arrival order. *)
Example history_after_45_points :
  PairState.history <$>
    (applyUpdates [Sample.eth_usd] (Sample.usd_at <$> seq 0 45) !! 0)
  = Some (pointOf <$> (Sample.usd_at <$> seq 5 40)).
Proof. vm_compute. reflexivity. Qed.

End Rates.

(** ** The hook: snapshot first, then the live messages *)

Section HookProperties.

Import RatesStream.

Variable JSON_parse : string → option RateUpdateMessage.t.

Lemma applyUpdates_snoc (cur : list PairState.t) (us : list RateUpdateMessage.t)
    (u : RateUpdateMessage.t) :
  applyUpdates cur (us ++ [u]) = appendHistoryPoint (applyUpdates cur us) u.
Proof. unfold applyUpdates. by rewrite foldl_app. Qed.

Lemma applyUpdates_cons (cur : list PairState.t) (us : list RateUpdateMessage.t)
    (u : RateUpdateMessage.t) :
  applyUpdates cur (u :: us) = applyUpdates (appendHistoryPoint cur u) us.
Proof. reflexivity. Qed.

(** A message that does not parse leaves the hook as it is. *)
Lemma onmessage_unparseable (data : string) (h : Hook) :
  JSON_parse data = None → onmessage JSON_parse data h = h.
Proof. intros Hp. unfold onmessage. rewrite Hp. by destruct h. Qed.

Lemma onmessage_parsed (data : string) (msg : RateUpdateMessage.t) (h : Hook) :
  JSON_parse data = Some msg →
  onmessage JSON_parse data h =
    mkHook (mkResult (appendHistoryPoint (rates (result h)) msg)
                     (connectionStatus (result h)) (error (result h)))
           (phase h) (effects h ++ [SetRatesUpdate msg]).
Proof. intros Hp. unfold onmessage. rewrite Hp. reflexivity. Qed.

(** One event of the socket: the phase stays, the rates and the effects grow
    by the update the event carries, if any. *)
Lemma step_streaming (h h' : Hook) (e : Event) :
  phase h = Streaming → step JSON_parse h e = Some h' →
  phase h' = Streaming ∧
  rates (result h') = applyUpdates (rates (result h)) (mergedUpdates JSON_parse [e]) ∧
  effects h' = effects h ++ (SetRatesUpdate <$> mergedUpdates JSON_parse [e]).
Proof.
  intros Hph Hstep. unfold step in Hstep. rewrite Hph in Hstep.
  destruct e as [fetched socket| |data| |]; simplify_eq; simpl;
    try (by rewrite app_nil_r).
  unfold mergedUpdates. simpl.
  destruct (JSON_parse data) as [msg|] eqn:Hp.
  - rewrite (onmessage_parsed _ _ _ Hp). done.
  - rewrite (onmessage_unparseable _ _ Hp). simpl. by rewrite app_nil_r.
Qed.

Lemma mergedUpdates_cons (e : Event) (events : list Event) :
  mergedUpdates JSON_parse (e :: events)
  = mergedUpdates JSON_parse [e] ++ mergedUpdates JSON_parse events.
Proof.
  unfold mergedUpdates. simpl.
  destruct e as [? ?| |data| |]; try reflexivity.
  by destruct (JSON_parse data).
Qed.

Lemma run_streaming (events : list Event) (h h' : Hook) :
  phase h = Streaming → run JSON_parse h events = Some h' →
  phase h' = Streaming ∧
  rates (result h') = applyUpdates (rates (result h)) (mergedUpdates JSON_parse events) ∧
  effects h' = effects h ++ (SetRatesUpdate <$> mergedUpdates JSON_parse events).
Proof.
  revert h. induction events as [|e events IH]; intros h Hph Hrun; simpl in Hrun.
  - simplify_eq. by rewrite app_nil_r.
  - destruct (step JSON_parse h e) as [h1|] eqn:Hstep; [|done].
    destruct (step_streaming _ _ _ Hph Hstep) as (Hph1 & Hr1 & He1).
    destruct (IH _ Hph1 Hrun) as (Hph' & Hr' & He').
    rewrite mergedUpdates_cons. split; [done|]. split.
    + rewrite Hr', Hr1. unfold applyUpdates. by rewrite foldl_app.
    + rewrite He', He1, fmap_app. by rewrite app_assoc.
Qed.

(** When the socket could not be constructed no event follows. *)
Lemma run_no_socket (events : list Event) (h h' : Hook) :
  phase h = NoSocket → run JSON_parse h events = Some h' → events = [] ∧ h' = h.
Proof.
  intros Hph Hrun. destruct events as [|e events]; simpl in Hrun.
  - by simplify_eq.
  - unfold step in Hrun. rewrite Hph in Hrun. by destruct e.
Qed.

Lemma ratesCalls_updates (us : list RateUpdateMessage.t) :
  ratesCalls (SetRatesUpdate <$> us) = SetRatesUpdate <$> us.
Proof.
  unfold ratesCalls. induction us as [|u us IH]; [reflexivity|].
  rewrite fmap_cons, filter_cons_True by done. by rewrite IH.
Qed.

Lemma ratesCalls_app (l1 l2 : list Effect) :
  ratesCalls (l1 ++ l2) = ratesCalls l1 ++ ratesCalls l2.
Proof. apply filter_app. Qed.

(** The hook after [start] and the events that follow it. *)
Lemma run_after_start (fetched : FetchOutcome) (socket : SocketOutcome)
    (events : list Event) (h : Hook) :
  run JSON_parse mounted (SnapshotSettled fetched socket :: events) = Some h →
  let us := mergedUpdates JSON_parse events in
  let h0 := start fetched socket mounted in
  rates (result h) = applyUpdates (rates (result h0)) us ∧
  effects h = effects h0 ++ (SetRatesUpdate <$> us).
Proof.
  simpl. intros Hrun.
  destruct socket.
  - apply run_streaming in Hrun as (_ & Hr & He); [done|by destruct fetched].
  - apply run_no_socket in Hrun as [-> ->]; [|by destruct fetched].
    simpl. by rewrite app_nil_r.
Qed.

(** C6. No event of the socket can reach the hook while [start] waits for
    the snapshot; and when the fetch resolves, the [setRates] calls of the
    whole run are the snapshot, once and first, followed by the updates of
    the messages in arrival order, so that the rates are the snapshot with
    those updates merged into it. *)
Theorem snapshot_applied_once_before_live_updates :
  (∀ (e : Event) (events : list Event),
     (∀ fetched socket, e ≠ SnapshotSettled fetched socket) →
     run JSON_parse mounted (e :: events) = None) ∧
  (∀ (snapshot : list PairState.t) (socket : SocketOutcome)
     (events : list Event) (h : Hook),
     run JSON_parse mounted (SnapshotSettled (Resolved snapshot) socket :: events)
       = Some h →
     ratesCalls (effects h)
       = SetRatesSnapshot snapshot
           :: (SetRatesUpdate <$> mergedUpdates JSON_parse events) ∧
     rates (result h)
       = applyUpdates (fromSnapshot snapshot) (mergedUpdates JSON_parse events)).
Proof.
  split.
  - intros e events Hne. simpl. destruct e; try reflexivity.
    by destruct (Hne fetched socket).
  - intros snapshot socket events h Hrun.
    apply run_after_start in Hrun as [Hr He]. split.
    + rewrite He, ratesCalls_app, ratesCalls_updates. by destruct socket.
    + rewrite Hr. by destruct socket.
Qed.

(** C7. A message whose data does not parse is dropped: the handler returns
    the hook as it was, with the same rates, the same connection status and
    the same error, and the socket keeps delivering events. *)
Theorem unparseable_message_dropped (h : Hook) (data : string) :
  JSON_parse data = None →
  onmessage JSON_parse data h = h ∧
  rates (result (onmessage JSON_parse data h)) = rates (result h) ∧
  connectionStatus (result (onmessage JSON_parse data h))
    = connectionStatus (result h) ∧
  error (result (onmessage JSON_parse data h)) = error (result h) ∧
  (phase h = Streaming → step JSON_parse h (Message data) = Some h).
Proof.
  intros Hp. rewrite (onmessage_unparseable _ _ Hp).
  repeat split. intros Hph. unfold step. rewrite Hph.
  by rewrite (onmessage_unparseable _ _ Hp).
Qed.

(** C8. When the snapshot fetch is rejected, the first part of [start]
    records the error and leaves the rates as they were (empty, for a hook
    just mounted); [start] goes on, calls [new WebSocket] and, when the
    socket is constructed, ends with the status [connecting], the rates still
    empty, the error still recorded and the handlers in place: every event of
    the socket, a message among them, is then delivered to its handler. *)
Theorem failed_snapshot_does_not_stop_stream (socket : SocketOutcome) :
  let h1 := loadSnapshot Rejected mounted in
  let h2 := start Rejected socket mounted in
  (error (result h1) = Some "Failed to load initial rates." ∧
   rates (result h1) = rates (result mounted) ∧
   rates (result mounted) = []) ∧
  (h2 = openSocket socket h1 ∧ NewWebSocket ∈ effects h2 ∧
   rates (result h2) = []) ∧
  (socket = Constructed →
   phase h2 = Streaming ∧
   connectionStatus (result h2) = ConnectionStatus.connecting ∧
   error (result h2) = Some "Failed to load initial rates." ∧
   step JSON_parse h2 Open = Some (onopen h2) ∧
   ∀ data, step JSON_parse h2 (Message data) = Some (onmessage JSON_parse data h2)).
Proof.
  simpl. split; [done|]. split.
  - split; [reflexivity|]. split; [|by destruct socket].
    destruct socket; simpl; set_solver.
  - intros ->. done.
Qed.

(** C5. An update for a pair that no entry of the state has is accepted
    without an error, and it creates no state for that pair:
    [appendHistoryPoint] returns the state as it was, so no entry of the
    result has the pair of the update; the message handler that merges it
    leaves the rates, the connection status and the error as they were. *)
Theorem unknown_pair_update_changes_nothing
    (current : list PairState.t) (update : RateUpdateMessage.t) :
  Forall (λ p, PairState.pair p ≠ RateUpdateMessage.pair update) current →
  appendHistoryPoint current update = current ∧
  Forall (λ p, PairState.pair p ≠ RateUpdateMessage.pair update)
    (appendHistoryPoint current update) ∧
  ∀ (h : Hook) (data : string),
    rates (result h) = current → JSON_parse data = Some update →
    result (onmessage JSON_parse data h) = result h.
Proof.
  intros Hall.
  assert (Heq : appendHistoryPoint current update = current).
  { unfold appendHistoryPoint. rewrite <- (list_fmap_id current) at 2.
    apply list_fmap_ext. intros i p Hi. apply mergeUpdate_other.
    rewrite Forall_forall in Hall. apply Hall. by eapply list_elem_of_lookup_2. }
  split; [done|]. split; [by rewrite Heq|].
  intros h data Hr Hp. rewrite (onmessage_parsed _ _ _ Hp). simpl.
  rewrite Hr, Heq, <- Hr. by destruct h as [[] ? ?].
Qed.

End HookProperties.

Section HookRuns.

Import RatesStream.

Lemma snapshot_applied_once_before_live_updates_witness :
  run Sample.parse mounted
    [Message "usd_110"; SnapshotSettled (Resolved [Sample.eth_eur]) Constructed]
    = None ∧
  ∃ h,
    run Sample.parse mounted
      [SnapshotSettled (Resolved [Sample.eth_usd; Sample.eth_eur]) Constructed;
       Open; Message "usd_110"; Message "{"; Message "btc_1"] = Some h ∧
    ratesCalls (effects h)
      = [SetRatesSnapshot [Sample.eth_usd; Sample.eth_eur];
         SetRatesUpdate Sample.usd_110; SetRatesUpdate Sample.btc_1] ∧
    rates (result h)
      = applyUpdates (fromSnapshot [Sample.eth_usd; Sample.eth_eur])
          [Sample.usd_110; Sample.btc_1].
Proof.
  split.
  - apply (proj1 (snapshot_applied_once_before_live_updates Sample.parse)).
    intros fetched socket. discriminate.
  - eexists. split; [reflexivity|].
    apply (proj2 (snapshot_applied_once_before_live_updates Sample.parse)
             [Sample.eth_usd; Sample.eth_eur] Constructed
             [Open; Message "usd_110"; Message "{"; Message "btc_1"]).
    reflexivity.
Defined.

Lemma unparseable_message_dropped_witness :
  let h := start (Resolved [Sample.eth_usd]) Constructed mounted in
  onmessage Sample.parse "{" h = h ∧
  rates (result (onmessage Sample.parse "{" h)) = rates (result h) ∧
  connectionStatus (result (onmessage Sample.parse "{" h))
    = connectionStatus (result h) ∧
  error (result (onmessage Sample.parse "{" h)) = error (result h) ∧
  (phase h = Streaming → step Sample.parse h (Message "{") = Some h).
Proof.
  apply (unparseable_message_dropped Sample.parse
           (start (Resolved [Sample.eth_usd]) Constructed mounted) "{").
  reflexivity.
Defined.

Lemma failed_snapshot_does_not_stop_stream_witness :
  let h2 := start Rejected Constructed mounted in
  phase h2 = Streaming ∧
  connectionStatus (result h2) = ConnectionStatus.connecting ∧
  error (result h2) = Some "Failed to load initial rates." ∧
  step Sample.parse h2 Open = Some (onopen h2) ∧
  ∀ data, step Sample.parse h2 (Message data)
          = Some (onmessage Sample.parse data h2).
Proof.
  apply (proj2 (proj2 (failed_snapshot_does_not_stop_stream Sample.parse Constructed))).
  reflexivity.
Defined.

(** X9. After a rejected fetch the rates stay empty whatever the socket
    delivers: the updates are merged into an array that has no pair. *)
Lemma rates_stay_empty_after_failed_snapshot (socket : SocketOutcome)
    (events : list Event) (h : Hook)
    (JSON_parse : string → option RateUpdateMessage.t) :
  run JSON_parse mounted (SnapshotSettled Rejected socket :: events) = Some h →
  rates (result h) = [].
Proof.
  intros Hrun. apply run_after_start in Hrun as [Hr _]. rewrite Hr.
  rewrite applyUpdates_fmap. by destruct socket.
Qed.

Lemma unknown_pair_update_changes_nothing_witness :
  appendHistoryPoint [Sample.eth_usd; Sample.eth_btc] Sample.doge_1
    = [Sample.eth_usd; Sample.eth_btc] ∧
  Forall (λ p, PairState.pair p ≠ "ETH/DOGE")
    (appendHistoryPoint [Sample.eth_usd; Sample.eth_btc] Sample.doge_1) ∧
  ∀ (h : Hook) (data : string),
    rates (result h) = [Sample.eth_usd; Sample.eth_btc] →
    Sample.parse data = Some Sample.doge_1 →
    result (onmessage Sample.parse data h) = result h.
Proof.
  apply (unknown_pair_update_changes_nothing Sample.parse
           [Sample.eth_usd; Sample.eth_btc] Sample.doge_1).
  repeat constructor; discriminate.
Defined.

(** The claim C5 as stated fails: an update for ETH/DOGE, merged into a state
    that tracks ETH/USD and ETH/BTC (or into the empty state), leaves the
    state as it was, and no entry for ETH/DOGE exists afterwards. *)
Lemma unknown_pair_update_creates_no_state :
  appendHistoryPoint [Sample.eth_usd; Sample.eth_btc] Sample.doge_1
    = [Sample.eth_usd; Sample.eth_btc] ∧
  appendHistoryPoint [] Sample.doge_1 = [] ∧
  ¬ ∃ p, p ∈ appendHistoryPoint [Sample.eth_usd; Sample.eth_btc] Sample.doge_1 ∧
         PairState.pair p = RateUpdateMessage.pair Sample.doge_1.
Proof.
  split; [reflexivity|]. split; [reflexivity|].
  intros (p & Hin & Hp).
  change (p ∈ [Sample.eth_usd; Sample.eth_btc]) in Hin.
  apply elem_of_cons in Hin as [->|Hin]; [discriminate|].
  apply elem_of_cons in Hin as [->|Hin]; [discriminate|].
  by apply elem_of_nil in Hin.
Qed.

End HookRuns.

(** ** The scale of the mini chart *)

Section Chart.

Import MiniChart.
Local Open Scope float_scope.

(** Two finite values that compare equal are the same triple. *)
Lemma SFeqb_finite_inv (s1 s2 : bool) (m1 m2 : positive) (e1 e2 : Z) :
  SFeqb (S754_finite s1 m1 e1) (S754_finite s2 m2 e2) = true →
  s1 = s2 ∧ m1 = m2 ∧ e1 = e2.
Proof.
  unfold SFeqb, SFcompare.
  destruct s1, s2; try discriminate;
    destruct (Z.compare e1 e2) eqn:He; try discriminate;
    destruct (Pos.compare_cont Eq m1 m2) eqn:Hm; try discriminate;
    intros _; apply Z.compare_eq in He; apply Pos.compare_eq in Hm; done.
Qed.

Lemma SFeqb_refl_finite (s : bool) (m : positive) (e : Z) :
  SFeqb (S754_finite s m e) (S754_finite s m e) = true.
Proof.
  unfold SFeqb, SFcompare.
  destruct s; rewrite Z.compare_refl, Pos.compare_cont_refl; reflexivity.
Qed.

(** The difference of two values that compare equal is a zero, or NaN (for
    two infinities). *)
Lemma SFsub_of_equal (sx sy : spec_float) :
  SFeqb sx sy = true →
  SFeqb (SF64sub sx sy) (S754_zero false) = true ∨
  SFeqb (SF64sub sx sy) (SF64sub sx sy) = false.
Proof.
  intros H. destruct sx as [s1|s1| |s1 m1 e1], sy as [s2|s2| |s2 m2 e2];
    try discriminate;
    try (destruct s1; discriminate); try (destruct s2; discriminate).
  - left. by destruct s1, s2.
  - right. by destruct s1, s2.
  - left. apply SFeqb_finite_inv in H as (-> & -> & ->).
    unfold SF64sub, SFsub. rewrite Z.sub_diag. reflexivity.
Qed.

Lemma SFeqb_not_nan (sx sy : spec_float) :
  SFeqb sx sy = true → SFeqb sx sx = true ∧ SFeqb sy sy = true.
Proof.
  intros H. destruct sx as [s1|s1| |s1 m1 e1], sy as [s2|s2| |s2 m2 e2];
    try discriminate;
    try (destruct s1; discriminate); try (destruct s2; discriminate).
  - done.
  - by destruct s1, s2.
  - by rewrite !SFeqb_refl_finite.
Qed.

Lemma SFeqb_zero_inv (sx : spec_float) :
  SFeqb sx (S754_zero false) = true → ∃ s, sx = S754_zero s.
Proof.
  destruct sx as [s|s| |s m e]; try discriminate; [by exists s| |];
    destruct s; discriminate.
Qed.

Lemma Prim2SF_zero : Prim2SF zero = S754_zero false.
Proof. reflexivity. Qed.

Lemma truthy_spec (x : float) :
  truthy x = true ↔ is_zero x = false ∧ is_nan x = false.
Proof.
  unfold truthy. destruct (is_zero x), (is_nan x); simpl; split;
    (intros [? ?] || intros ?); done.
Qed.

(** [x - y] is falsy when [x == y]. *)
Lemma sub_of_equal_falsy (x y : float) :
  (x =? y) = true → truthy (x - y) = false.
Proof.
  intros H. rewrite FloatAxioms.eqb_spec in H.
  unfold truthy, is_zero, is_nan.
  rewrite !FloatAxioms.eqb_spec, sub_spec, Prim2SF_zero.
  destruct (SFsub_of_equal _ _ H) as [-> | ->]; [reflexivity|].
  by rewrite orb_true_r.
Qed.

Lemma eqb_not_nan (x y : float) :
  (x =? y) = true → is_nan x = false ∧ is_nan y = false.
Proof.
  intros H. rewrite FloatAxioms.eqb_spec in H. unfold is_nan. rewrite !FloatAxioms.eqb_spec.
  by destruct (SFeqb_not_nan _ _ H) as [-> ->].
Qed.

(** The two zeros are the only values that compare equal to zero. *)
Lemma is_zero_inv (x : float) : is_zero x = true → x = zero ∨ x = neg_zero.
Proof.
  unfold is_zero. rewrite FloatAxioms.eqb_spec, Prim2SF_zero. intros H.
  apply SFeqb_zero_inv in H as [s Hs].
  rewrite <- (SF2Prim_Prim2SF x), Hs. destruct s; [right|left]; reflexivity.
Qed.

Lemma eqb_zero_r (x y : float) :
  (x =? y) = true → is_zero x = true → is_zero y = true.
Proof.
  unfold is_zero. rewrite !FloatAxioms.eqb_spec, Prim2SF_zero. intros H Hx.
  apply SFeqb_zero_inv in Hx as [s Hs]. rewrite Hs in H.
  destruct (Prim2SF y) as [s'|s'| |s' m e]; try done; destruct s'; done.
Qed.

(** [a || b] is truthy when [b] is. *)
Lemma or_else_truthy (a b : float) : truthy b = true → truthy (or_else a b) = true.
Proof. intros Hb. unfold or_else. by destruct (truthy a) eqn:Ha. Qed.

Lemma range_truthy (points : list PricePoint.t) : truthy (range points) = true.
Proof. unfold range. by apply or_else_truthy. Qed.

Lemma range_one_of_equal (points : list PricePoint.t) :
  (Math_max (prices points) =? Math_min (prices points)) = true →
  range points = 1.
Proof.
  intros H. unfold range, max, min.
  set (mx := Math_max (prices points)) in *.
  set (mn := Math_min (prices points)) in *.
  unfold or_else at 2. destruct (truthy mx) eqn:Hmx.
  - unfold or_else. by rewrite (sub_of_equal_falsy _ _ H).
  - assert (Hz : is_zero mx = true).
    { destruct (eqb_not_nan _ _ H) as [Hn _]. unfold truthy in Hmx.
      rewrite Hn, orb_false_r in Hmx. by destruct (is_zero mx). }
    pose proof (eqb_zero_r _ _ H Hz) as Hmn.
    apply is_zero_inv in Hmn as [-> | ->]; reflexivity.
Qed.

(** The chart of a rising price runs from the bottom left to the top right;
    the chart of a flat price lies on the bottom line. *)
Example MiniChart_rising :
  MiniChart Sample.rising = Some [(0, 60); (130, 30); (260, 0)].
Proof. vm_compute. reflexivity. Qed.

Example MiniChart_flat :
  range Sample.flat = 1 ∧ MiniChart Sample.flat = Some [(0, 60); (260, 60)].
Proof. split; vm_compute; reflexivity. Qed.

Example MiniChart_empty : MiniChart [] = None.
Proof. reflexivity. Qed.

(** *** Coordinates that are numbers

    Rounding never produces NaN: the mantissa stays non-negative through the
    shifts and the rounding to nearest. *)

Lemma shr_1_nonneg (mrs : shr_record) :
  (0 ≤ shr_m mrs → 0 ≤ shr_m (shr_1 mrs))%Z.
Proof.
  destruct mrs as [m r s]. simpl. destruct m as [|q|q]; simpl; try lia;
    destruct q; simpl; lia.
Qed.

Lemma iter_pos_shr_1_nonneg (n : positive) (mrs : shr_record) :
  (0 ≤ shr_m mrs → 0 ≤ shr_m (SpecFloat.iter_pos shr_1 n mrs))%Z.
Proof.
  revert mrs. induction n as [n IH|n IH|]; intros mrs H; simpl.
  - apply IH, IH. by apply shr_1_nonneg.
  - by apply IH, IH.
  - by apply shr_1_nonneg.
Qed.

Lemma shr_fexp_nonneg (m e : Z) (l : location) :
  (0 ≤ m → 0 ≤ shr_m (fst (shr_fexp prec emax m e l)))%Z.
Proof.
  intros H. unfold shr_fexp, shr.
  assert (H0 : (0 ≤ shr_m (shr_record_of_loc m l))%Z).
  { destruct l as [|[]]; simpl; lia. }
  destruct (_ - e)%Z; simpl; try done. by apply iter_pos_shr_1_nonneg.
Qed.

Lemma round_nearest_even_nonneg (m : Z) (l : location) :
  (0 ≤ m → 0 ≤ round_nearest_even m l)%Z.
Proof.
  intros H. destruct l as [|[]]; simpl; try lia. destruct (Z.even m); lia.
Qed.

Lemma binary_round_aux_not_nan (s : bool) (m e : Z) (l : location) :
  (0 ≤ m)%Z → binary_round_aux prec emax s m e l ≠ S754_nan.
Proof.
  intros H. unfold binary_round_aux.
  pose proof (shr_fexp_nonneg m e l H) as H1.
  destruct (shr_fexp prec emax m e l) as [mrs' e']. simpl in H1.
  pose proof (shr_fexp_nonneg _ e' loc_Exact
                (round_nearest_even_nonneg _ (loc_of_shr_record mrs') H1)) as H2.
  destruct (shr_fexp prec emax _ e' loc_Exact) as [mrs'' e'']. simpl in H2.
  destruct (shr_m mrs''); [done| |lia].
  by destruct (_ <=? _)%Z.
Qed.

Lemma binary_normalize_not_nan (m e : Z) (sz : bool) :
  binary_normalize prec emax m e sz ≠ S754_nan.
Proof.
  unfold binary_normalize, binary_round.
  destruct m as [|q|q]; [done| |];
    destruct (shl_align _ _ _) as [mz ez]; by apply binary_round_aux_not_nan.
Qed.

Lemma SFsub_not_nan (x y : spec_float) :
  fin x = true → y ≠ S754_nan → SF64sub x y ≠ S754_nan.
Proof.
  intros Hx Hy. destruct x as [sx|sx| |sx mx ex]; try done;
    destruct y as [sy|sy| |sy my ey]; try done; simpl.
  - by destruct sx, sy.
  - apply binary_normalize_not_nan.
Qed.

Lemma SFdiv_core_nonneg (mx my : positive) (ex ey : Z) :
  (0 ≤ fst (fst (SFdiv_core_binary prec emax (Zpos mx) ex (Zpos my) ey)))%Z.
Proof.
  unfold SFdiv_core_binary.
  set (s := (ex - ey - _)%Z).
  set (m' := match s with
             | Zpos _ => Z.shiftl (Zpos mx) s
             | Z0 => Zpos mx
             | Zneg _ => 0%Z
             end).
  assert (Hm : (0 ≤ m')%Z).
  { unfold m'. destruct s; try lia. apply Z.shiftl_nonneg. lia. }
  pose proof (Z_div_mod m' (Zpos my) eq_refl) as Hdm.
  destruct (Z.div_eucl m' (Zpos my)) as [q r]. simpl.
  destruct Hdm as [Heq Hr]. nia.
Qed.

Lemma SFdiv_not_nan (x : spec_float) (s : bool) (m : positive) (e : Z) :
  x ≠ S754_nan → SF64div x (S754_finite s m e) ≠ S754_nan.
Proof.
  intros Hx. destruct x as [sx|sx| |sx mx ex]; try done.
  unfold SF64div, SFdiv.
  pose proof (SFdiv_core_nonneg mx m ex e) as H.
  destruct (SFdiv_core_binary _ _ _ _ _ _) as [[mz ez] lz]. simpl in H.
  by apply binary_round_aux_not_nan.
Qed.

Lemma SFmul_not_nan (x : spec_float) (s : bool) (m : positive) (e : Z) :
  x ≠ S754_nan → SF64mul x (S754_finite s m e) ≠ S754_nan.
Proof.
  intros Hx. destruct x as [sx|sx| |sx mx ex]; try done. simpl.
  by apply binary_round_aux_not_nan.
Qed.

(** From the tests on numbers to the values of the format. *)
Lemma is_nan_false (x : float) : is_nan x = false ↔ Prim2SF x ≠ S754_nan.
Proof.
  unfold is_nan. rewrite FloatAxioms.eqb_spec.
  destruct (Prim2SF x) as [s|s| |s m e]; simpl;
    try (split; [done|reflexivity]).
  - by destruct s.
  - split; [done|intros H; by destruct H].
  - by rewrite SFeqb_refl_finite.
Qed.

Lemma Prim2SF_infinity : Prim2SF infinity = S754_infinity false.
Proof. reflexivity. Qed.

Lemma is_infinity_false (x : float) :
  is_infinity x = false → ∀ s, Prim2SF x ≠ S754_infinity s.
Proof.
  unfold is_infinity. rewrite FloatAxioms.eqb_spec, abs_spec, Prim2SF_infinity.
  intros H s Hx. rewrite Hx in H. discriminate.
Qed.

Lemma is_finite_fin (x : float) : is_finite x = true → fin (Prim2SF x) = true.
Proof.
  unfold is_finite. intros H. apply negb_true_iff, orb_false_iff in H as [Hn Hi].
  apply is_nan_false in Hn. pose proof (is_infinity_false x Hi) as Hinf.
  destruct (Prim2SF x) as [s|s| |s m e]; try done. by destruct (Hinf s).
Qed.

Lemma truthy_Prim2SF (x : float) :
  truthy x = true →
  Prim2SF x ≠ S754_nan ∧ ∀ s, Prim2SF x ≠ S754_zero s.
Proof.
  intros [Hz Hn]%truthy_spec. split; [by apply is_nan_false|].
  intros s Hx. unfold is_zero in Hz.
  rewrite FloatAxioms.eqb_spec, Prim2SF_zero, Hx in Hz. discriminate.
Qed.

Lemma ltb_infinity (x : float) : is_finite x = true → (x <? infinity) = true.
Proof.
  intros H%is_finite_fin. rewrite ltb_spec, Prim2SF_infinity.
  by destruct (Prim2SF x).
Qed.

(** The minimum of finite prices is finite. *)
Lemma min_from_finite (values : list float) (lowest : float) :
  is_finite lowest = true → Forall (λ v, is_finite v = true) values →
  is_finite (min_from lowest values) = true.
Proof.
  revert lowest. induction values as [|v values IH]; intros lowest Hl Hall;
    [done|].
  apply Forall_cons in Hall as [Hv Hall]. simpl.
  assert (Hn : is_nan v = false).
  { unfold is_finite in Hv. by destruct (is_nan v). }
  rewrite Hn. apply IH; [|done].
  destruct (is_neg_zero v && is_pos_zero lowest);
    by destruct (v <? _).
Qed.

Lemma Math_min_finite (values : list float) :
  values ≠ [] → Forall (λ v, is_finite v = true) values →
  is_finite (Math_min values) = true.
Proof.
  destruct values as [|v values]; [done|]. intros _ Hall.
  apply Forall_cons in Hall as [Hv Hall]. unfold Math_min. simpl.
  assert (Hn : is_nan v = false).
  { unfold is_finite in Hv. by destruct (is_nan v). }
  rewrite Hn, andb_false_r, (ltb_infinity v Hv). by apply min_from_finite.
Qed.

(** For finite prices whose spread does not overflow, the [y] of every
    point is a number: it is not NaN. *)
Lemma y_not_nan (points : list PricePoint.t) (index : nat) (p : PricePoint.t) :
  Forall (λ q, is_finite (PricePoint.price q) = true) points →
  p ∈ points →
  is_infinity (range points) = false →
  is_nan (snd (coordinate points index p)) = false.
Proof.
  intros Hall Hin Hrange. simpl.
  assert (Hp : is_finite (PricePoint.price p) = true).
  { rewrite Forall_forall in Hall. by apply Hall. }
  assert (Hmin : is_finite (min points) = true).
  { apply Math_min_finite.
    - unfold prices. intros Hnil. apply fmap_nil_inv in Hnil. subst.
      by apply elem_of_nil in Hin.
    - unfold prices. by apply Forall_fmap. }
  destruct (truthy_Prim2SF _ (range_truthy points)) as [Hrn Hrz].
  pose proof (is_infinity_false _ Hrange) as Hri.
  apply is_nan_false.
  rewrite sub_spec, mul_spec, div_spec, sub_spec.
  apply SFsub_not_nan; [reflexivity|].
  change (Prim2SF height) with (S754_finite false 8444249301319680 (-47)).
  apply SFmul_not_nan.
  destruct (Prim2SF (range points)) as [s|s| |s m e];
    [by destruct (Hrz s)|by destruct (Hri s)|done|].
  apply SFdiv_not_nan, SFsub_not_nan.
  - by apply is_finite_fin.
  - apply is_finite_fin in Hmin. by destruct (Prim2SF (min points)).
Qed.

Lemma is_finite_not_nan (v : float) : is_finite v = true → is_nan v = false.
Proof. unfold is_finite. by destruct (is_nan v). Qed.

Lemma neg_infinity_ltb (v : float) :
  is_finite v = true → (neg_infinity <? v) = true.
Proof.
  intros H%is_finite_fin. rewrite ltb_spec.
  change (Prim2SF neg_infinity) with (S754_infinity true).
  by destruct (Prim2SF v).
Qed.

(** The two zeros are told apart by their class. *)
Lemma is_neg_zero_inv (x : float) : is_neg_zero x = true → x = neg_zero.
Proof.
  unfold is_neg_zero. rewrite classify_spec. intros H.
  rewrite <- (SF2Prim_Prim2SF x).
  destruct (Prim2SF x) as [[]|[]| |[] m e];
    unfold SF64classify, SFclassify in H; try done;
    by destruct (Z.eqb _ _).
Qed.

Lemma is_pos_zero_inv (x : float) : is_pos_zero x = true → x = zero.
Proof.
  unfold is_pos_zero. rewrite classify_spec. intros H.
  rewrite <- (SF2Prim_Prim2SF x).
  destruct (Prim2SF x) as [[]|[]| |[] m e];
    unfold SF64classify, SFclassify in H; try done;
    by destruct (Z.eqb _ _).
Qed.

(** The minimum and the maximum of finite prices are among the prices. *)
Lemma min_from_elem (values : list float) (lowest : float) :
  Forall (λ v, is_finite v = true) values →
  min_from lowest values = lowest ∨ min_from lowest values ∈ values.
Proof.
  revert lowest. induction values as [|v values IH]; intros lowest Hall;
    [by left|].
  apply Forall_cons in Hall as [Hv Hall]. simpl.
  rewrite (is_finite_not_nan v Hv).
  destruct (is_neg_zero v && is_pos_zero lowest) eqn:Hz.
  - apply andb_true_iff in Hz as [Hz%is_neg_zero_inv _]. subst v.
    destruct (neg_zero <? neg_zero);
      (destruct (IH neg_zero Hall) as [->|Hin];
       [right; apply elem_of_cons; by left
       |right; apply elem_of_cons; by right]).
  - destruct (v <? lowest).
    + destruct (IH v Hall) as [->|Hin];
        [right; apply elem_of_cons; by left
        |right; apply elem_of_cons; by right].
    + destruct (IH lowest Hall) as [->|Hin];
        [by left|right; apply elem_of_cons; by right].
Qed.

Lemma max_from_elem (values : list float) (highest : float) :
  Forall (λ v, is_finite v = true) values →
  max_from highest values = highest ∨ max_from highest values ∈ values.
Proof.
  revert highest. induction values as [|v values IH]; intros highest Hall;
    [by left|].
  apply Forall_cons in Hall as [Hv Hall]. simpl.
  rewrite (is_finite_not_nan v Hv).
  destruct (is_pos_zero v && is_neg_zero highest) eqn:Hz.
  - apply andb_true_iff in Hz as [Hz%is_pos_zero_inv _]. subst v.
    destruct (zero <? zero);
      (destruct (IH zero Hall) as [->|Hin];
       [right; apply elem_of_cons; by left
       |right; apply elem_of_cons; by right]).
  - destruct (highest <? v).
    + destruct (IH v Hall) as [->|Hin];
        [right; apply elem_of_cons; by left
        |right; apply elem_of_cons; by right].
    + destruct (IH highest Hall) as [->|Hin];
        [by left|right; apply elem_of_cons; by right].
Qed.

Lemma Math_min_elem (values : list float) :
  values ≠ [] → Forall (λ v, is_finite v = true) values →
  Math_min values ∈ values.
Proof.
  destruct values as [|v values]; [done|]. intros _ Hall.
  pose proof Hall as Hall'. apply Forall_cons in Hall' as [Hv Hrest].
  unfold Math_min. simpl.
  rewrite (is_finite_not_nan v Hv), andb_false_r, (ltb_infinity v Hv).
  destruct (min_from_elem values v Hrest) as [->|Hin];
    apply elem_of_cons; [by left|by right].
Qed.

Lemma Math_max_elem (values : list float) :
  values ≠ [] → Forall (λ v, is_finite v = true) values →
  Math_max values ∈ values.
Proof.
  destruct values as [|v values]; [done|]. intros _ Hall.
  pose proof Hall as Hall'. apply Forall_cons in Hall' as [Hv Hrest].
  unfold Math_max. simpl.
  rewrite (is_finite_not_nan v Hv), andb_false_r, (neg_infinity_ltb v Hv).
  destruct (max_from_elem values v Hrest) as [->|Hin];
    apply elem_of_cons; [by left|by right].
Qed.

(** When no difference of two prices, and no difference of 1 and a price,
    overflows, [range] is finite. *)
Lemma range_not_infinite (points : list PricePoint.t) :
  points ≠ [] →
  Forall (λ q, is_finite (PricePoint.price q) = true) points →
  (∀ p q, p ∈ points → q ∈ points →
     is_infinity (PricePoint.price p - PricePoint.price q) = false) →
  (∀ q, q ∈ points → is_infinity (1 - PricePoint.price q) = false) →
  is_infinity (range points) = false.
Proof.
  intros Hne Hall Hdiff Hone.
  assert (Hps : Forall (λ v, is_finite v = true) (prices points)).
  { unfold prices. by apply Forall_fmap. }
  assert (Hne' : prices points ≠ []).
  { unfold prices. intros Hnil. by apply fmap_nil_inv in Hnil. }
  pose proof (Math_min_elem _ Hne' Hps) as Hmin.
  pose proof (Math_max_elem _ Hne' Hps) as Hmax.
  unfold prices in Hmin, Hmax.
  apply list_elem_of_fmap in Hmin as (q & Hq & Hqin).
  apply list_elem_of_fmap in Hmax as (p & Hp & Hpin).
  unfold range, or_else at 1.
  destruct (truthy (max points - min points)); [|reflexivity].
  unfold max, min, or_else. fold (prices points) in Hq, Hp.
  rewrite Hq. destruct (truthy (Math_max (prices points))).
  - rewrite Hp. by apply Hdiff.
  - by apply Hone.
Qed.

(** C10. For a non-empty array of points the divisor [range] is a number
    other than zero: it is neither [+0] nor [-0] nor NaN, and it is 1 when
    the maximum of the prices equals their minimum.  The component then
    renders one coordinate per point, in order, whose [y] is
    [height - ((price - min) / range) * height], a division by that nonzero
    [range].  The [y] of every point is a number (not NaN) when the prices
    are finite and [range] is finite, which is so when no difference of two
    prices, and no difference of 1 and a price, overflows. *)
Theorem range_nonzero_coordinates_defined (points : list PricePoint.t) :
  points ≠ [] →
  (is_zero (range points) = false ∧ is_nan (range points) = false) ∧
  ((Math_max (prices points) =? Math_min (prices points)) = true →
   range points = 1) ∧
  ((max points =? min points) = true → range points = 1) ∧
  (∃ coords, MiniChart points = Some coords ∧
     length coords = length points ∧
     ∀ (index : nat) (p : PricePoint.t), points !! index = Some p →
       coords !! index
       = Some (of_index index * stepX points,
               height - (PricePoint.price p - min points) / range points * height)) ∧
  (Forall (λ q, is_finite (PricePoint.price q) = true) points →
   is_infinity (range points) = false →
   ∀ (index : nat) (p : PricePoint.t), points !! index = Some p →
     is_nan (height - (PricePoint.price p - min points) / range points * height)
       = false) ∧
  (Forall (λ q, is_finite (PricePoint.price q) = true) points →
   (∀ p q, p ∈ points → q ∈ points →
      is_infinity (PricePoint.price p - PricePoint.price q) = false) →
   (∀ q, q ∈ points → is_infinity (1 - PricePoint.price q) = false) →
   ∀ (index : nat) (p : PricePoint.t), points !! index = Some p →
     is_nan (height - (PricePoint.price p - min points) / range points * height)
       = false).
Proof.
  intros Hne. split; [|split; [|split; [|split; [|split]]]].
  - apply truthy_spec, range_truthy.
  - apply range_one_of_equal.
  - intros H. unfold range, or_else. by rewrite (sub_of_equal_falsy _ _ H).
  - exists (path points). split; [|split].
    + unfold MiniChart. rewrite decide_False; [done|].
      by destruct points.
    + apply length_imap.
    + intros index p Hp. unfold path. rewrite list_lookup_imap, Hp. done.
  - intros Hall Hrange index p Hp.
    apply (y_not_nan points index p); [done| |done].
    by eapply list_elem_of_lookup_2.
  - intros Hall Hdiff Hone index p Hp.
    apply (y_not_nan points index p); [done| |].
    + by eapply list_elem_of_lookup_2.
    + by apply range_not_infinite.
Qed.

Lemma range_nonzero_coordinates_defined_witness :
  (is_zero (range Sample.rising) = false ∧ is_nan (range Sample.rising) = false) ∧
  ((Math_max (prices Sample.rising) =? Math_min (prices Sample.rising)) = true →
   range Sample.rising = 1) ∧
  ((max Sample.rising =? min Sample.rising) = true → range Sample.rising = 1) ∧
  (∃ coords, MiniChart Sample.rising = Some coords ∧
     length coords = length Sample.rising ∧
     ∀ (index : nat) (p : PricePoint.t), Sample.rising !! index = Some p →
       coords !! index
       = Some (of_index index * stepX Sample.rising,
               height - (PricePoint.price p - min Sample.rising)
                        / range Sample.rising * height)) ∧
  (Forall (λ q, is_finite (PricePoint.price q) = true) Sample.rising →
   is_infinity (range Sample.rising) = false →
   ∀ (index : nat) (p : PricePoint.t), Sample.rising !! index = Some p →
     is_nan (height - (PricePoint.price p - min Sample.rising)
                      / range Sample.rising * height) = false) ∧
  (Forall (λ q, is_finite (PricePoint.price q) = true) Sample.rising →
   (∀ p q, p ∈ Sample.rising → q ∈ Sample.rising →
      is_infinity (PricePoint.price p - PricePoint.price q) = false) →
   (∀ q, q ∈ Sample.rising → is_infinity (1 - PricePoint.price q) = false) →
   ∀ (index : nat) (p : PricePoint.t), Sample.rising !! index = Some p →
     is_nan (height - (PricePoint.price p - min Sample.rising)
                      / range Sample.rising * height) = false).
Proof.
  apply (range_nonzero_coordinates_defined Sample.rising). discriminate.
Defined.

(** The hypotheses of the last two parts hold of the rising chart: its
    prices are finite, and neither their differences nor [range] overflow;
    so none of its [y] is NaN. *)
Lemma rising_chart_is_numbers :
  Forall (λ q, is_finite (PricePoint.price q) = true) Sample.rising ∧
  is_infinity (range Sample.rising) = false ∧
  (∀ p q, p ∈ Sample.rising → q ∈ Sample.rising →
     is_infinity (PricePoint.price p - PricePoint.price q) = false) ∧
  (∀ q, q ∈ Sample.rising → is_infinity (1 - PricePoint.price q) = false).
Proof.
  assert (Hin : ∀ q, q ∈ Sample.rising →
            PricePoint.price q = 100 ∨ PricePoint.price q = 110 ∨
            PricePoint.price q = 120).
  { intros q Hq. unfold Sample.rising in Hq.
    repeat (apply elem_of_cons in Hq as [->|Hq]; [simpl; tauto|]).
    by apply elem_of_nil in Hq. }
  split; [by repeat constructor|]. split; [reflexivity|]. split.
  - intros p q Hp Hq.
    destruct (Hin p Hp) as [->|[->| ->]], (Hin q Hq) as [->|[->| ->]];
      reflexivity.
  - intros q Hq. destruct (Hin q Hq) as [->|[->| ->]]; reflexivity.
Qed.

(** The claim C10 as stated fails: two finite prices whose difference
    overflows, and a single infinite price, are rendered with a [y] that is
    NaN, though nothing is divided by zero. *)
Lemma MiniChart_renders_NaN :
  (is_finite Sample.huge = true ∧ is_finite (- Sample.huge) = true ∧
   ∃ coords c,
     MiniChart [Sample.point_at Sample.huge; Sample.point_at (- Sample.huge)]
       = Some coords ∧
     coords !! 0%nat = Some c ∧ is_nan (snd c) = true) ∧
  (∃ coords c,
     MiniChart [Sample.point_at infinity] = Some coords ∧
     coords !! 0%nat = Some c ∧ is_nan (snd c) = true).
Proof.
  split; [split; [reflexivity|split; [reflexivity|]]|];
    (eexists; eexists; split; [vm_compute; reflexivity|];
     split; [reflexivity|reflexivity]).
Qed.

End Chart.

(** ** The hourly average of the aggregator *)

Section Average.

Import Aggregator.
Local Open Scope Z_scope.

Lemma foldl_Qplus (a : Q) (ps : list Q) :
  (foldl Qplus a ps == a + foldr Qplus 0 ps)%Q.
Proof.
  revert a. induction ps as [|p ps IH]; intros a; simpl.
  - ring.
  - rewrite IH. ring.
Qed.

Lemma forallb_take {A} (f : A → bool) (n : nat) (l : list A) :
  forallb f l = true → forallb f (take n l) = true.
Proof.
  revert n. induction l as [|x l IH]; intros [|n]; simpl; try done.
  intros [Hx Hl]%andb_true_iff. by rewrite Hx, IH.
Qed.

Lemma increasing_from_take (t : Z) (n : nat) (ticks : list Tick) :
  increasing_from t ticks = true → increasing_from t (take n ticks) = true.
Proof.
  revert t n. induction ticks as [|x ticks IH]; intros t [|n]; simpl; try done.
  intros [Hx Hl]%andb_true_iff. by rewrite Hx, IH.
Qed.

(** A tick of positive price, not older than the last update, is applied. *)
Lemma rejected_false (e : option Entry) (tick : Tick) :
  Qle_bool (tick_price tick) 0 = false →
  (∀ lu, e ≫= (λ e, last_update (state e)) = Some lu → lu ≤ observed_at tick) →
  rejected e tick = false.
Proof.
  intros Hp Hlu. unfold rejected. rewrite Hp. simpl.
  destruct (e ≫= _) as [lu|]; [|done].
  apply Z.ltb_ge. by apply Hlu.
Qed.

(** Ticks that continue the bucket of a pair add their prices to its sum. *)
Lemma apply_ticks_continue (k : string) (ticks : list Tick) :
  ∀ (store : gmap string Entry) (e : Entry) (b : Bucket) (lu : Z),
    store !! k = Some e → tracks e b lu → bucket_start b ≤ lu →
    ticks_of k ticks = true →
    increasing_from lu ticks = true →
    within_hour_of (bucket_start b) ticks = true →
    ∃ e' b' lu',
      apply_ticks store ticks !! k = Some e' ∧ tracks e' b' lu' ∧
      bucket_start b' = bucket_start b ∧
      tick_count b' = (tick_count b + length ticks)%nat ∧
      sum_of_prices b' = foldl Qplus (sum_of_prices b) (tick_price <$> ticks).
Proof.
  induction ticks as [|t ticks IH]; intros store e b lu He Htr Hle Hof Hinc Hin.
  - exists e, b, lu. simpl. rewrite Nat.add_0_r. done.
  - simpl in Hof, Hinc, Hin.
    apply andb_true_iff in Hof as [[Hk Hp]%andb_true_iff Hof].
    apply bool_decide_eq_true in Hk. apply negb_true_iff in Hp.
    apply andb_true_iff in Hinc as [Hlt%Z.ltb_lt Hinc].
    apply andb_true_iff in Hin as [Hhour%Z.ltb_lt Hin].
    destruct Htr as (Hb & Hlu & Havg).
    set (b1 := mkBucket (sum_of_prices b + tick_price t)%Q
                 (S (tick_count b)) (bucket_start b)).
    assert (Hnext : next_bucket (Some b) t = b1).
    { unfold next_bucket, continues_bucket.
      replace (observed_at t - bucket_start b <? ONE_HOUR) with true
        by (symmetry; by apply Z.ltb_lt).
      replace (bucket_start b <=? observed_at t) with true
        by (symmetry; apply Z.leb_le; lia).
      reflexivity. }
    assert (Hstep : ∃ e1, apply_tick store t !! k = Some e1 ∧
                          tracks e1 b1 (observed_at t)).
    { unfold apply_tick. rewrite Hk, He.
      rewrite rejected_false; [|done|].
      - simpl. rewrite Hb, Hnext. rewrite lookup_insert_eq.
        eexists. split; [reflexivity|]. done.
      - simpl. rewrite Hlu. intros ? [= <-]. lia. }
    destruct Hstep as (e1 & He1 & Htr1).
    destruct (IH (apply_tick store t) e1 b1 (observed_at t))
      as (e' & b' & lu' & He' & Htr' & Hs' & Hc' & Hsum'); try done.
    { simpl. lia. }
    exists e', b', lu'. simpl. split; [done|]. split; [done|].
    split; [done|]. split; [simpl in Hc'; lia|done].
Qed.

(** A tick that opens the hour of its pair starts a bucket of its own. *)
Lemma apply_tick_first (store : gmap string Entry) (t : Tick) :
  starts_bucket store t → Qle_bool (tick_price t) 0 = false →
  ∃ e, apply_tick store t !! tick_pair t = Some e ∧
       tracks e (mkBucket (tick_price t) 1 (observed_at t)) (observed_at t).
Proof.
  intros Hst Hp. unfold starts_bucket in Hst. unfold apply_tick.
  destruct (store !! tick_pair t) as [e|] eqn:He.
  - destruct Hst as [Hlu Hb]. rewrite rejected_false; [|done|].
    + simpl. rewrite lookup_insert_eq. eexists. split; [reflexivity|].
      unfold next_bucket. destruct (bucket e) as [b|]; simpl in *; [|done].
      by rewrite Hb.
    + simpl. intros lu Heq. rewrite Heq in Hlu. exact Hlu.
  - rewrite rejected_false; [|done|done].
    simpl. rewrite lookup_insert_eq. eexists. split; [reflexivity|]. done.
Qed.

(** A pair that has seen no tick: its first tick opens its hour. *)
Lemma unseen_starts_bucket (store : gmap string Entry) (t : Tick) :
  unseen store (tick_pair t) → starts_bucket store t.
Proof.
  unfold unseen, starts_bucket. destruct (store !! tick_pair t) as [e|]; [|done].
  by intros [-> ->].
Qed.

(** C4. For ticks of one pair with positive prices, strictly increasing
    timestamps and all within the hour that the first of them opens (the pair
    had seen no tick, or the first tick rolls its bucket over), the hourly
    average of the pair after each tick (after the first [n] ticks, for every
    [n] from 1 to the number of ticks) is the arithmetic mean of the prices
    of the ticks applied so far in that hour. *)
Theorem hourly_average_is_mean_within_hour
    (store : gmap string Entry) (k : string) (ticks : list Tick) (n : nat) :
  (∀ t, head ticks = Some t → starts_bucket store t) →
  ticks_of k ticks = true →
  strictly_increasing ticks = true →
  same_hour ticks = true →
  (0 < n ≤ length ticks)%nat →
  ∃ avg, hourly_average_of (apply_ticks store (take n ticks)) k = Some avg ∧
         (avg == mean (tick_price <$> take n ticks))%Q.
Proof.
  intros Hst Hof Hinc Hhour [Hn Hlen].
  destruct ticks as [|t ticks]; [simpl in Hlen; lia|].
  destruct n as [|n]; [lia|]. simpl in *.
  apply andb_true_iff in Hof as [[Hk Hp]%andb_true_iff Hof].
  apply bool_decide_eq_true in Hk. apply negb_true_iff in Hp.
  destruct (apply_tick_first store t (Hst t eq_refl) Hp) as (e & He & Htr).
  rewrite Hk in He.
  destruct (apply_ticks_continue k (take n ticks) (apply_tick store t) e
              (mkBucket (tick_price t) 1 (observed_at t)) (observed_at t))
    as (e' & b' & lu' & He' & (Hb' & _ & Havg') & _ & Hc' & Hsum').
  - exact He.
  - exact Htr.
  - reflexivity.
  - by apply forallb_take.
  - by apply increasing_from_take.
  - by apply forallb_take.
  - unfold apply_ticks in He'. unfold hourly_average_of, apply_ticks.
    rewrite He'. simpl. rewrite Havg'. eexists. split; [reflexivity|].
    unfold mean. rewrite Hc', Hsum'. simpl.
    rewrite foldl_Qplus, length_fmap. reflexivity.
Qed.

Lemma hourly_average_is_mean_within_hour_witness :
  ∃ avg,
    hourly_average_of (apply_ticks ∅ (take 3 Sample.three_ticks)) "ETH/USD"
      = Some avg ∧
    (avg == mean (tick_price <$> take 3 Sample.three_ticks))%Q.
Proof.
  apply (hourly_average_is_mean_within_hour ∅ "ETH/USD" Sample.three_ticks 3).
  - intros t _. unfold starts_bucket. by rewrite lookup_empty.
  - reflexivity.
  - reflexivity.
  - reflexivity.
  - simpl. lia.
Defined.

(** The end-to-end example of the specification: after the three ticks the
    average is 110, the last price 120 and the history has three entries. *)
Example three_ticks_end_to_end :
  match apply_ticks ∅ Sample.three_ticks !! "ETH/USD" with
  | Some e =>
      (from_option id 0 (hourly_average (state e)) == 110)%Q ∧
      last_price (state e) = Some 120%Q ∧
      length (recent_history (state e)) = 3%nat
  | None => False
  end.
Proof. vm_compute. repeat split; discriminate. Qed.

(** A tick an hour or more after the start of the bucket starts a bucket of
    its own: the average is its price. *)
Example rollover_resets_average :
  match apply_ticks ∅ Sample.two_hours !! "ETH/USD" with
  | Some e =>
      (from_option id 0 (hourly_average (state e)) == 200)%Q ∧
      hour_started_at (state e) = Some 4000
  | None => False
  end.
Proof. vm_compute. split; [reflexivity|reflexivity]. Qed.

End Average.

(** * More properties of the code *)

(** ** [appendHistoryPoint] over the whole array *)

Section Array.

Import RatesStream.

(** X1. Updates never add, remove or reorder pairs: after any sequence of
    updates the array has the same length and the same pair symbols at the
    same indices. *)
Theorem applyUpdates_keeps_pairs
    (current : list PairState.t) (updates : list RateUpdateMessage.t) :
  PairState.pair <$> applyUpdates current updates = PairState.pair <$> current ∧
  length (applyUpdates current updates) = length current.
Proof.
  rewrite applyUpdates_fmap. split; [|apply length_fmap].
  rewrite <- list_fmap_compose. apply list_fmap_ext.
  intros i p _. simpl. apply mergeUpdates_pair.
Qed.

Lemma mergeUpdate_commute (u1 u2 : RateUpdateMessage.t) (p : PairState.t) :
  RateUpdateMessage.pair u1 ≠ RateUpdateMessage.pair u2 →
  mergeUpdate u2 (mergeUpdate u1 p) = mergeUpdate u1 (mergeUpdate u2 p).
Proof.
  intros Hne.
  destruct (decide (PairState.pair p = RateUpdateMessage.pair u1)) as [H1|H1];
    destruct (decide (PairState.pair p = RateUpdateMessage.pair u2)) as [H2|H2].
  - congruence.
  - rewrite (mergeUpdate_other u2 p) by done.
    rewrite (mergeUpdate_other u2); [done|]. by rewrite mergeUpdate_pair.
  - rewrite (mergeUpdate_other u1 p) by done.
    rewrite (mergeUpdate_other u1); [done|]. by rewrite mergeUpdate_pair.
  - rewrite (mergeUpdate_other u1 p) by done.
    rewrite (mergeUpdate_other u2 p) by done.
    by rewrite (mergeUpdate_other u1 p).
Qed.

(** X2. Updates for two different pairs can be merged in either order: the
    resulting array is the same. *)
Theorem appendHistoryPoint_commutes
    (current : list PairState.t) (u1 u2 : RateUpdateMessage.t) :
  RateUpdateMessage.pair u1 ≠ RateUpdateMessage.pair u2 →
  appendHistoryPoint (appendHistoryPoint current u1) u2
  = appendHistoryPoint (appendHistoryPoint current u2) u1.
Proof.
  intros Hne. unfold appendHistoryPoint. rewrite <- !list_fmap_compose.
  apply list_fmap_ext. intros i p _. simpl. by apply mergeUpdate_commute.
Qed.

Lemma appendHistoryPoint_commutes_witness :
  appendHistoryPoint
    (appendHistoryPoint [Sample.eth_btc; Sample.eth_usd] Sample.usd_110)
    Sample.btc_1
  = appendHistoryPoint
      (appendHistoryPoint [Sample.eth_btc; Sample.eth_usd] Sample.btc_1)
      Sample.usd_110.
Proof.
  apply (appendHistoryPoint_commutes [Sample.eth_btc; Sample.eth_usd]
           Sample.usd_110 Sample.btc_1).
  discriminate.
Defined.

Lemma last_lastN_snoc {A} (n : nat) (l : list A) (x : A) :
  0 < n → last (lastN n (l ++ [x])) = Some x.
Proof.
  intros Hn. unfold lastN. rewrite length_app. simpl.
  rewrite drop_app_le by lia. apply last_snoc.
Qed.

(** The state of a pair after updates of its own, the last of which is
    [u]. *)
Lemma mergeUpdates_last (p : PairState.t) (own : list RateUpdateMessage.t)
    (u : RateUpdateMessage.t) :
  Forall (λ u, RateUpdateMessage.pair u = PairState.pair p) own →
  last own = Some u →
  mergeUpdates p own
  = PairState.mk (PairState.pair p)
      (Some (RateUpdateMessage.price u))
      (Some (RateUpdateMessage.hourly_avg u))
      (Some (RateUpdateMessage.last_update u))
      (PairState.history (mergeUpdates p own)) ∧
  last (PairState.history (mergeUpdates p own)) = Some (pointOf u).
Proof.
  intros Hall Hlast. apply last_Some in Hlast as [own' ->].
  rewrite Forall_app, Forall_singleton in Hall. destruct Hall as [_ Hu].
  rewrite mergeUpdates_snoc, mergeUpdate_own
    by (by rewrite mergeUpdates_pair).
  simpl. rewrite mergeUpdates_pair. split; [reflexivity|].
  apply last_lastN_snoc. unfold MAX_POINTS. lia.
Qed.

(** X3. The last update addressed to a pair wins: after any sequence of
    updates, the [price], [hourly_avg] and [last_update] of the pair are
    those of the last update of the sequence that carries its symbol, and the
    last point of its history is the point of that update. *)
Theorem last_own_update_wins
    (current : list PairState.t) (updates : list RateUpdateMessage.t)
    (i : nat) (pair : PairState.t) (update : RateUpdateMessage.t) :
  current !! i = Some pair →
  last (ownUpdates pair updates) = Some update →
  ∃ pair', applyUpdates current updates !! i = Some pair' ∧
    PairState.price pair' = Some (RateUpdateMessage.price update) ∧
    PairState.hourly_avg pair' = Some (RateUpdateMessage.hourly_avg update) ∧
    PairState.last_update pair' = Some (RateUpdateMessage.last_update update) ∧
    last (PairState.history pair') = Some (pointOf update).
Proof.
  intros Hi Hlast. eexists. split; [by apply applyUpdates_lookup_own|].
  destruct (mergeUpdates_last pair _ update (ownUpdates_Forall pair updates) Hlast)
    as [Heq Hl].
  rewrite Heq. simpl. repeat split. by rewrite Heq in Hl.
Qed.

Lemma last_own_update_wins_witness :
  ∃ pair',
    applyUpdates [Sample.eth_btc; Sample.eth_usd]
      [Sample.usd_110; Sample.usd_120; Sample.btc_1] !! 1 = Some pair' ∧
    PairState.price pair' = Some 120%float ∧
    PairState.hourly_avg pair' = Some 110%float ∧
    PairState.last_update pair' = Some "2025-01-01T10:00:10Z" ∧
    last (PairState.history pair') = Some (pointOf Sample.usd_120).
Proof.
  apply (last_own_update_wins [Sample.eth_btc; Sample.eth_usd]
           [Sample.usd_110; Sample.usd_120; Sample.btc_1] 1
           Sample.eth_usd Sample.usd_120); reflexivity.
Defined.

(** X4. The first update merged for a pair after the snapshot gives it a
    history of exactly one point, the point of that update, whatever history
    the snapshot entry carried. *)
Theorem first_update_after_snapshot
    (snapshot : list PairState.t) (update : RateUpdateMessage.t)
    (i : nat) (s : PairState.t) :
  snapshot !! i = Some s →
  PairState.pair s = RateUpdateMessage.pair update →
  ∃ pair', appendHistoryPoint (fromSnapshot snapshot) update !! i = Some pair' ∧
    PairState.history pair' = [pointOf update].
Proof.
  intros Hi Hpair. unfold appendHistoryPoint, fromSnapshot.
  rewrite !list_lookup_fmap, Hi. simpl. eexists. split; [reflexivity|].
  by rewrite mergeUpdate_own.
Qed.

Lemma first_update_after_snapshot_witness :
  ∃ pair',
    appendHistoryPoint (fromSnapshot [Sample.eth_usd; Sample.eth_eur])
      Sample.eur_95 !! 1 = Some pair' ∧
    PairState.history pair' = [pointOf Sample.eur_95].
Proof.
  apply (first_update_after_snapshot [Sample.eth_usd; Sample.eth_eur]
           Sample.eur_95 1 Sample.eth_eur); reflexivity.
Defined.

End Array.

(** ** The hook over a whole run *)

Section HookRunsMore.

Import RatesStream.

Variable JSON_parse : string → option RateUpdateMessage.t.

Lemma mergeUpdate_bounded (u : RateUpdateMessage.t) (p : PairState.t) :
  historyBounded p → historyBounded (mergeUpdate u p).
Proof.
  intros Hp. unfold historyBounded, mergeUpdate. case_decide; [done|]. simpl.
  rewrite trimHistory_lastN, length_lastN. lia.
Qed.

Lemma mergeUpdate_agrees (u : RateUpdateMessage.t) (p : PairState.t) :
  historyAgrees p → historyAgrees (mergeUpdate u p).
Proof.
  intros Hp. unfold mergeUpdate. case_decide; [done|].
  unfold historyAgrees. simpl.
  rewrite trimHistory_lastN, last_lastN_snoc by (unfold MAX_POINTS; lia).
  done.
Qed.

(** What the snapshot establishes and every merge keeps holds of every pair
    in every state the hook reaches. *)
Lemma run_invariant (P : PairState.t → Prop) :
  (∀ u p, P p → P (mergeUpdate u p)) →
  (∀ p, PairState.history p = [] → P p) →
  ∀ (events : list Event) (h : Hook),
    run JSON_parse mounted events = Some h → Forall P (rates (result h)).
Proof.
  intros Hmerge Hempty events h Hrun.
  destruct events as [|e events]; [simpl in Hrun; by simplify_eq|].
  destruct e as [fetched socket| | | |]; try done.
  apply run_after_start in Hrun as [Hr _]. rewrite Hr, applyUpdates_fmap.
  apply Forall_fmap, Forall_forall. intros p Hp. simpl.
  assert (Hp0 : P p).
  { apply Hempty. destruct fetched as [snapshot|], socket; simpl in Hp;
      try (by apply elem_of_nil in Hp);
      unfold fromSnapshot in Hp; apply list_elem_of_fmap in Hp as (s & -> & _);
      reflexivity. }
  clear Hp. generalize (mergedUpdates JSON_parse events). intros us.
  revert p Hp0. induction us as [|u us IH]; intros p Hp0; [done|].
  simpl. apply IH. by apply Hmerge.
Qed.

(** X5. In every state that the hook reaches, from the mount on and whatever
    the fetch, the socket and the messages do, the history of every pair has
    at most 40 entries. *)
Theorem reachable_histories_bounded (events : list Event) (h : Hook) :
  run JSON_parse mounted events = Some h →
  Forall (λ p, length (PairState.history p) ≤ 40) (rates (result h)).
Proof.
  intros Hrun.
  assert (Hempty : ∀ p, PairState.history p = [] → historyBounded p).
  { intros p Hp. unfold historyBounded. rewrite Hp. simpl. lia. }
  exact (run_invariant historyBounded mergeUpdate_bounded Hempty events h Hrun).
Qed.

(** X6. In every state that the hook reaches, a pair whose history is not
    empty shows the [price] and the [last_update] of the last point of its
    history: the cell and the end of the chart never disagree. *)
Theorem reachable_history_agrees (events : list Event) (h : Hook) :
  run JSON_parse mounted events = Some h →
  Forall (λ p, ∀ point, last (PairState.history p) = Some point →
               PairState.price p = Some (PricePoint.price point) ∧
               PairState.last_update p = Some (PricePoint.timestamp point))
         (rates (result h)).
Proof.
  intros Hrun.
  assert (Hempty : ∀ p, PairState.history p = [] → historyAgrees p).
  { intros p Hp. unfold historyAgrees. by rewrite Hp. }
  pose proof (run_invariant historyAgrees mergeUpdate_agrees Hempty events h Hrun)
    as Hall.
  eapply Forall_impl; [exact Hall|].
  intros p Hp point Hlast. unfold historyAgrees in Hp. by rewrite Hlast in Hp.
Qed.

Lemma status_after_events (events : list Event) (h0 h : Hook) :
  phase h0 = Streaming → run JSON_parse h0 events = Some h →
  connectionStatus (result h)
  = from_option id (connectionStatus (result h0)) (last (omap statusSet events)) ∧
  error (result h)
  = from_option id (error (result h0)) (last (omap errorSet events)).
Proof.
  revert h0. induction events as [|e events IH]; intros h0 Hph Hrun;
    simpl in Hrun.
  - by simplify_eq.
  - destruct (step JSON_parse h0 e) as [h1|] eqn:Hstep; [|done].
    destruct (step_streaming _ _ _ _ Hph Hstep) as (Hph1 & _ & _).
    destruct (IH h1 Hph1 Hrun) as [-> ->]. clear IH Hrun.
    unfold step in Hstep. rewrite Hph in Hstep.
    destruct e as [fetched socket| |data| |]; simplify_eq; simpl;
      rewrite ?last_cons;
      try (split; by repeat destruct (last _)).
    unfold onmessage. by destruct (JSON_parse data).
Qed.

(** X7. Once the socket is constructed, the connection status is the one set
    by the last open, error or close event delivered ([connected], [error],
    [closed]), and [connecting] while there was none; messages never change
    it. *)
Theorem status_is_last_set
    (fetched : FetchOutcome) (events : list Event) (h : Hook) :
  run JSON_parse mounted (SnapshotSettled fetched Constructed :: events) = Some h →
  connectionStatus (result h)
  = from_option id ConnectionStatus.connecting (last (omap statusSet events)).
Proof.
  simpl. intros Hrun.
  apply status_after_events in Hrun as [-> _]; by destruct fetched.
Qed.

(** X8. Once the socket is constructed, the error is the one set by the last
    open or error event delivered: none after an open, which also erases the
    error of a failed snapshot, ["WebSocket connection error."] after an
    error; a close and a message leave it; and while no such event came it is
    the error that the snapshot fetch left. *)
Theorem error_is_last_set
    (fetched : FetchOutcome) (events : list Event) (h : Hook) :
  run JSON_parse mounted (SnapshotSettled fetched Constructed :: events) = Some h →
  error (result h)
  = from_option id (snapshotError fetched) (last (omap errorSet events)).
Proof.
  simpl. intros Hrun.
  apply status_after_events in Hrun as [_ ->]; by destruct fetched.
Qed.

(** X10. When [new WebSocket] throws, the hook ends with the status [error]
    and the error ["Could not open WebSocket connection."], also after a
    failed snapshot, whose error it replaces; the rates are the snapshot if
    it was loaded; and no event of a socket follows. *)
Theorem socket_constructor_throws
    (fetched : FetchOutcome) (events : list Event) (h : Hook) :
  run JSON_parse mounted (SnapshotSettled fetched Threw :: events) = Some h →
  events = [] ∧
  connectionStatus (result h) = ConnectionStatus.error ∧
  error (result h) = Some "Could not open WebSocket connection." ∧
  rates (result h)
  = match fetched with Resolved snapshot => fromSnapshot snapshot | Rejected => [] end.
Proof.
  simpl. intros Hrun.
  apply run_no_socket in Hrun as [-> ->]; by destruct fetched.
Qed.

End HookRunsMore.

Section HookRunsMoreWitnesses.

Import RatesStream.

Lemma reachable_histories_bounded_witness :
  ∃ h,
    run Sample.parse mounted
      [SnapshotSettled (Resolved [Sample.eth_usd; Sample.eth_eur]) Constructed;
       Open; Message "usd_110"; Message "usd_110"] = Some h ∧
    Forall (λ p, length (PairState.history p) ≤ 40) (rates (result h)).
Proof.
  eexists. split; [reflexivity|].
  apply (reachable_histories_bounded Sample.parse
           [SnapshotSettled (Resolved [Sample.eth_usd; Sample.eth_eur]) Constructed;
            Open; Message "usd_110"; Message "usd_110"]).
  reflexivity.
Defined.

Lemma reachable_history_agrees_witness :
  ∃ h,
    run Sample.parse mounted
      [SnapshotSettled (Resolved [Sample.eth_usd; Sample.eth_eur]) Constructed;
       Open; Message "usd_110"] = Some h ∧
    Forall (λ p, ∀ point, last (PairState.history p) = Some point →
                 PairState.price p = Some (PricePoint.price point) ∧
                 PairState.last_update p = Some (PricePoint.timestamp point))
           (rates (result h)).
Proof.
  eexists. split; [reflexivity|].
  apply (reachable_history_agrees Sample.parse
           [SnapshotSettled (Resolved [Sample.eth_usd; Sample.eth_eur]) Constructed;
            Open; Message "usd_110"]).
  reflexivity.
Defined.

Lemma status_is_last_set_witness :
  ∃ h,
    run Sample.parse mounted
      [SnapshotSettled (Resolved [Sample.eth_usd]) Constructed;
       Open; Message "usd_110"; Error; Close; Message "usd_110"] = Some h ∧
    connectionStatus (result h) = ConnectionStatus.closed.
Proof.
  eexists. split; [reflexivity|].
  apply (status_is_last_set Sample.parse (Resolved [Sample.eth_usd])
           [Open; Message "usd_110"; Error; Close; Message "usd_110"]).
  reflexivity.
Defined.

Lemma error_is_last_set_witness :
  (∃ h,
     run Sample.parse mounted
       [SnapshotSettled Rejected Constructed; Message "usd_110"; Close] = Some h ∧
     error (result h) = Some "Failed to load initial rates.") ∧
  (∃ h,
     run Sample.parse mounted
       [SnapshotSettled Rejected Constructed; Open; Message "usd_110"] = Some h ∧
     error (result h) = None) ∧
  (∃ h,
     run Sample.parse mounted
       [SnapshotSettled (Resolved [Sample.eth_usd]) Constructed; Open; Error; Close]
       = Some h ∧
     error (result h) = Some "WebSocket connection error.").
Proof.
  split; [|split]; (eexists; split; [reflexivity|]).
  - apply (error_is_last_set Sample.parse Rejected [Message "usd_110"; Close]).
    reflexivity.
  - apply (error_is_last_set Sample.parse Rejected [Open; Message "usd_110"]).
    reflexivity.
  - apply (error_is_last_set Sample.parse (Resolved [Sample.eth_usd])
             [Open; Error; Close]).
    reflexivity.
Defined.

Lemma socket_constructor_throws_witness :
  ∃ h,
    run Sample.parse mounted [SnapshotSettled Rejected Threw] = Some h ∧
    [] = @nil Event ∧
    connectionStatus (result h) = ConnectionStatus.error ∧
    error (result h) = Some "Could not open WebSocket connection." ∧
    rates (result h) = [].
Proof.
  eexists. split; [reflexivity|].
  apply (socket_constructor_throws Sample.parse Rejected []).
  reflexivity.
Defined.

Lemma rates_stay_empty_after_failed_snapshot_witness :
  ∃ h,
    run Sample.parse mounted
      [SnapshotSettled Rejected Constructed; Open; Message "usd_110";
       Message "btc_1"] = Some h ∧
    rates (result h) = [].
Proof.
  eexists. split; [reflexivity|].
  apply (rates_stay_empty_after_failed_snapshot Constructed
           [Open; Message "usd_110"; Message "btc_1"] _ Sample.parse).
  reflexivity.
Defined.

End HookRunsMoreWitnesses.

(** ** The mini chart on flat and single prices *)

Section ChartMore.

Import MiniChart.
Local Open Scope float_scope.

Lemma eqb_refl_finite (v : float) : is_finite v = true → (v =? v) = true.
Proof.
  intros H%is_finite_not_nan. unfold is_nan in H. by destruct (v =? v).
Qed.

Lemma ltb_irrefl_finite (v : float) : is_finite v = true → (v <? v) = false.
Proof.
  intros H%is_finite_fin. rewrite ltb_spec. unfold SFltb.
  destruct (Prim2SF v) as [s|s| |s m e]; try done.
  pose proof (SFeqb_refl_finite s m e) as Heq. unfold SFeqb in Heq.
  by destruct (SFcompare _ _) as [[]|].
Qed.

Lemma zero_signs_exclusive (v : float) : is_neg_zero v && is_pos_zero v = false.
Proof. unfold is_neg_zero, is_pos_zero. by destruct (classify v). Qed.

(** The difference of a finite number with itself is [+0]. *)
Lemma sub_diag_finite (v : float) : is_finite v = true → v - v = zero.
Proof.
  intros H%is_finite_fin. apply Prim2SF_inj. rewrite sub_spec, Prim2SF_zero.
  destruct (Prim2SF v) as [s|s| |s m e]; try done.
  - by destruct s.
  - unfold SF64sub, SFsub. rewrite Z.sub_diag. reflexivity.
Qed.

Lemma min_from_const (v : float) (values : list float) :
  is_finite v = true → Forall (λ x, x = v) values → min_from v values = v.
Proof.
  intros Hv Hall. induction Hall as [|x values -> _ IH]; [done|].
  simpl. rewrite (is_finite_not_nan v Hv), zero_signs_exclusive,
    (ltb_irrefl_finite v Hv). exact IH.
Qed.

Lemma max_from_const (v : float) (values : list float) :
  is_finite v = true → Forall (λ x, x = v) values → max_from v values = v.
Proof.
  intros Hv Hall. induction Hall as [|x values -> _ IH]; [done|].
  simpl. rewrite (is_finite_not_nan v Hv), andb_comm, zero_signs_exclusive,
    (ltb_irrefl_finite v Hv). exact IH.
Qed.

Lemma Math_min_const (v : float) (values : list float) :
  values ≠ [] → is_finite v = true → Forall (λ x, x = v) values →
  Math_min values = v.
Proof.
  intros Hne Hv Hall. destruct Hall as [|x values -> Hall]; [done|].
  unfold Math_min. simpl.
  rewrite (is_finite_not_nan v Hv), andb_false_r, (ltb_infinity v Hv).
  by apply min_from_const.
Qed.

Lemma Math_max_const (v : float) (values : list float) :
  values ≠ [] → is_finite v = true → Forall (λ x, x = v) values →
  Math_max values = v.
Proof.
  intros Hne Hv Hall. destruct Hall as [|x values -> Hall]; [done|].
  unfold Math_max. simpl.
  rewrite (is_finite_not_nan v Hv), andb_false_r, (neg_infinity_ltb v Hv).
  by apply max_from_const.
Qed.

(** The scale of a flat chart. *)
Lemma flat_scale (points : list PricePoint.t) (v : float) :
  points ≠ [] → is_finite v = true →
  Forall (λ p, PricePoint.price p = v) points →
  min points = v ∧ range points = 1.
Proof.
  intros Hne Hv Hall.
  assert (Hps : Forall (λ x, x = v) (prices points)).
  { unfold prices. by apply Forall_fmap. }
  assert (Hne' : prices points ≠ []).
  { unfold prices. intros Hnil. by apply fmap_nil_inv in Hnil. }
  assert (Hmin : Math_min (prices points) = v) by by apply Math_min_const.
  split; [exact Hmin|].
  apply range_one_of_equal.
  rewrite Hmin, (Math_max_const v) by done. by apply eqb_refl_finite.
Qed.

(** X11. A flat price draws a flat line on the bottom of the chart: when
    every point of a non-empty array has the same finite price, [range] is 1
    and every rendered coordinate has [y = 60], the height of the chart. *)
Theorem flat_chart_is_bottom_line (points : list PricePoint.t) (v : float) :
  points ≠ [] → is_finite v = true →
  Forall (λ p, PricePoint.price p = v) points →
  range points = 1 ∧
  ∃ coords, MiniChart points = Some coords ∧
    length coords = length points ∧
    ∀ (index : nat) (c : float * float), coords !! index = Some c → snd c = 60.
Proof.
  intros Hne Hv Hall. destruct (flat_scale points v Hne Hv Hall) as [Hmin Hr].
  split; [exact Hr|]. exists (path points). split; [|split].
  - unfold MiniChart. rewrite decide_False; [done|]. by destruct points.
  - apply length_imap.
  - intros index c Hc. unfold path in Hc.
    rewrite list_lookup_imap in Hc.
    destruct (points !! index) as [p|] eqn:Hp; [|done].
    simpl in Hc. injection Hc as <-. simpl.
    rewrite Forall_forall in Hall.
    rewrite (Hall p) by by eapply list_elem_of_lookup_2.
    rewrite Hmin, Hr, (sub_diag_finite v Hv). reflexivity.
Qed.

Lemma flat_chart_is_bottom_line_witness :
  range Sample.flat = 1 ∧
  ∃ coords, MiniChart Sample.flat = Some coords ∧
    length coords = length Sample.flat ∧
    ∀ (index : nat) (c : float * float), coords !! index = Some c → snd c = 60.
Proof.
  apply (flat_chart_is_bottom_line Sample.flat 100).
  - discriminate.
  - reflexivity.
  - repeat constructor.
Defined.

(** X12. A single point of finite price is drawn as the one coordinate
    [(0, 60)], the bottom left corner: with one point [stepX] is the width,
    not a division by [length - 1 = 0]. *)
Theorem single_point_chart (p : PricePoint.t) :
  is_finite (PricePoint.price p) = true →
  stepX [p] = width ∧ MiniChart [p] = Some [(0, 60)].
Proof.
  intros Hv. split; [reflexivity|].
  assert (Hall : Forall (λ q, PricePoint.price q = PricePoint.price p) [p])
    by by repeat constructor.
  assert (Hne : [p] ≠ []) by done.
  destruct (flat_scale [p] (PricePoint.price p) Hne Hv Hall) as [Hmin Hr].
  unfold MiniChart, path. simpl. unfold coordinate.
  rewrite Hmin, Hr, (sub_diag_finite _ Hv). reflexivity.
Qed.

Lemma single_point_chart_witness :
  stepX [Sample.point_at 1234.5] = width ∧
  MiniChart [Sample.point_at 1234.5] = Some [(0, 60)].
Proof.
  apply (single_point_chart (Sample.point_at 1234.5)). reflexivity.
Defined.

(** X13. The chart is drawn from the prices alone: two arrays of points with
    the same prices in the same order give the same coordinates, whatever
    their timestamps; the points are spaced by index. *)
Theorem chart_ignores_timestamps (points points' : list PricePoint.t) :
  prices points = prices points' → MiniChart points = MiniChart points'.
Proof.
  intros Hps.
  assert (Hlen : length points = length points').
  { pose proof (f_equal length Hps) as H. unfold prices in H.
    by rewrite !length_fmap in H. }
  unfold MiniChart. rewrite Hlen. case_decide; [done|]. f_equal.
  unfold path. apply list_eq. intros i. rewrite !list_lookup_imap.
  assert (Hi : PricePoint.price <$> points !! i
               = PricePoint.price <$> points' !! i).
  { rewrite <- !list_lookup_fmap. unfold prices in Hps. by rewrite Hps. }
  destruct (points !! i) as [p|], (points' !! i) as [p'|]; simplify_eq/=;
    [|done].
  unfold coordinate, stepX, range, max, min. by rewrite Hps, Hlen, Hi.
Qed.

Lemma chart_ignores_timestamps_witness :
  MiniChart Sample.flat
  = MiniChart [Sample.point_at 100; Sample.point_at 100].
Proof.
  apply (chart_ignores_timestamps Sample.flat
           [Sample.point_at 100; Sample.point_at 100]).
  reflexivity.
Defined.

End ChartMore.

(** ** The cleanup of the effect *)

Section Cleanup.

Import RatesStream.

Variable JSON_parse : string → option RateUpdateMessage.t.

Lemma lifeRun_app (l1 l2 : list LifeEvent) (m : Mount) :
  lifeRun JSON_parse m (l1 ++ l2)
  = lifeRun JSON_parse m l1 ≫= (λ m1, lifeRun JSON_parse m1 l2).
Proof.
  revert m. induction l1 as [|e l1 IH]; intros m; simpl; [done|].
  destruct (lifeStep JSON_parse m e); [apply IH|done].
Qed.

(** [close] is called by the cleanup only. *)
Lemma lifeRun_before_cleanup (events : list LifeEvent) (m0 m : Mount) :
  (cleanedUp m0 = false → closeCalls m0 = 0) →
  lifeRun JSON_parse m0 events = Some m →
  cleanedUp m = false → closeCalls m = 0.
Proof.
  revert m0. induction events as [|e events IH]; intros m0 H0 Hrun; simpl in Hrun.
  - by simplify_eq.
  - destruct (lifeStep JSON_parse m0 e) as [m1|] eqn:Hstep; [|done].
    apply (IH m1); [|done]. destruct e as [e|]; simpl in Hstep.
    + destruct (step JSON_parse (hook m0) e); by simplify_eq.
    + destruct (cleanedUp m0); [done|]. simplify_eq.
      unfold cleanup. by destruct (ws m0) as [[]|].
Qed.

Lemma lifeRun_after_cleanup (events : list LifeEvent) (m0 m : Mount) :
  cleanedUp m0 = true → lifeRun JSON_parse m0 events = Some m →
  cleanedUp m = true ∧ closeCalls m = closeCalls m0.
Proof.
  revert m0. induction events as [|e events IH]; intros m0 H0 Hrun; simpl in Hrun.
  - by simplify_eq.
  - destruct (lifeStep JSON_parse m0 e) as [m1|] eqn:Hstep; [|done].
    destruct e as [e|]; simpl in Hstep.
    + destruct (step JSON_parse (hook m0) e); [|done]. simplify_eq.
      apply IH in Hrun; [|exact H0]. exact Hrun.
    + by rewrite H0 in Hstep.
Qed.

(** The socket, once constructed, is there to the end. *)
Lemma lifeStep_socket_stays (e : LifeEvent) (m0 m1 : Mount) :
  is_Some (ws m0) → phase (hook m0) = Streaming →
  lifeStep JSON_parse m0 e = Some m1 →
  is_Some (ws m1) ∧ phase (hook m1) = Streaming.
Proof.
  intros Hws Hph Hstep. destruct e as [e|]; simpl in Hstep.
  - destruct (step JSON_parse (hook m0) e) as [h'|] eqn:Hs; [|done].
    destruct (step_streaming _ _ _ _ Hph Hs) as (Hph' & _ & _).
    simplify_eq. simpl. split.
    + unfold step in Hs. rewrite Hph in Hs. by destruct e.
    + by destruct (cleanedUp m0).
  - destruct (cleanedUp m0); [done|]. simplify_eq.
    unfold cleanup. by destruct (ws m0) as [[]|].
Qed.

Lemma lifeRun_socket_stays (events : list LifeEvent) (m0 m : Mount) :
  is_Some (ws m0) → phase (hook m0) = Streaming →
  lifeRun JSON_parse m0 events = Some m → is_Some (ws m).
Proof.
  revert m0. induction events as [|e events IH]; intros m0 Hws Hph Hrun;
    simpl in Hrun.
  - by simplify_eq.
  - destruct (lifeStep JSON_parse m0 e) as [m1|] eqn:Hstep; [|done].
    destruct (lifeStep_socket_stays e m0 m1 Hws Hph Hstep) as [Hws1 Hph1].
    by apply (IH m1).
Qed.

(** X14. Over the whole life of the component [ws.close()] is called by the
    cleanup alone and only on an open socket: in a run with an unmount, the
    number of [close] calls at the end is 1 when the socket was [OPEN] at the
    unmount, and 0 when it was null, connecting or closed. *)
Theorem cleanup_closes_open_socket_only
    (before after : list LifeEvent) (m : Mount) :
  lifeRun JSON_parse mountedEffect (before ++ Unmount :: after) = Some m →
  ∃ m0, lifeRun JSON_parse mountedEffect before = Some m0 ∧
    closeCalls m = match ws m0 with Some OPEN => 1 | _ => 0 end.
Proof.
  rewrite lifeRun_app. intros Hrun.
  destruct (lifeRun JSON_parse mountedEffect before) as [m0|] eqn:H0; [|done].
  exists m0. split; [done|]. simpl in Hrun.
  destruct (cleanedUp m0) eqn:Hc; [done|].
  assert (Hz : closeCalls m0 = 0).
  { by apply (lifeRun_before_cleanup before mountedEffect m0). }
  apply lifeRun_after_cleanup in Hrun as [_ ->].
  - unfold cleanup. destruct (ws m0) as [[]|]; simpl; lia.
  - unfold cleanup. by destruct (ws m0) as [[]|].
Qed.

(** X15. An unmount that comes before the socket has opened leaves a socket
    that the hook never closes: whether the component unmounts while the
    snapshot is still loading ([start] then goes on and constructs the
    socket all the same) or while the socket is connecting, [close] is never
    called, whatever follows, and the socket is there to the end. *)
Theorem unmount_before_open_never_closes
    (fetched : FetchOutcome) (after : list LifeEvent) (m : Mount) :
  lifeRun JSON_parse mountedEffect
    (Unmount :: Browser (SnapshotSettled fetched Constructed) :: after) = Some m ∨
  lifeRun JSON_parse mountedEffect
    (Browser (SnapshotSettled fetched Constructed) :: Unmount :: after) = Some m →
  closeCalls m = 0 ∧ is_Some (ws m).
Proof.
  intros [Hrun|Hrun]; simpl in Hrun.
  - split.
    + by apply lifeRun_after_cleanup in Hrun as [_ ->].
    + apply lifeRun_socket_stays in Hrun; [done|by eexists|by destruct fetched].
  - split.
    + by apply lifeRun_after_cleanup in Hrun as [_ ->].
    + apply lifeRun_socket_stays in Hrun; [done|by eexists|by destruct fetched].
Qed.

End Cleanup.

Section CleanupWitnesses.

Import RatesStream.

Lemma cleanup_closes_open_socket_only_witness :
  ∃ m m0,
    lifeRun Sample.parse mountedEffect
      ([Browser (SnapshotSettled (Resolved [Sample.eth_usd]) Constructed);
        Browser Open; Browser (Message "usd_110")]
       ++ Unmount :: [Browser Close]) = Some m ∧
    lifeRun Sample.parse mountedEffect
      [Browser (SnapshotSettled (Resolved [Sample.eth_usd]) Constructed);
       Browser Open; Browser (Message "usd_110")] = Some m0 ∧
    ws m0 = Some OPEN ∧ closeCalls m = 1.
Proof.
  eexists.
  destruct (cleanup_closes_open_socket_only Sample.parse
              [Browser (SnapshotSettled (Resolved [Sample.eth_usd]) Constructed);
               Browser Open; Browser (Message "usd_110")]
              [Browser Close] _ eq_refl) as (m0 & H0 & Hc).
  exists m0. split; [reflexivity|]. split; [exact H0|].
  injection H0 as <-. split; [reflexivity|exact Hc].
Defined.

Lemma unmount_before_open_never_closes_witness :
  ∃ m,
    lifeRun Sample.parse mountedEffect
      [Unmount; Browser (SnapshotSettled (Resolved [Sample.eth_usd]) Constructed);
       Browser Open; Browser (Message "usd_110")] = Some m ∧
    ws m = Some OPEN ∧ closeCalls m = 0 ∧ is_Some (ws m).
Proof.
  eexists. split; [reflexivity|]. split; [reflexivity|].
  apply (unmount_before_open_never_closes Sample.parse
           (Resolved [Sample.eth_usd])
           [Browser Open; Browser (Message "usd_110")]).
  left. reflexivity.
Defined.

End CleanupWitnesses.

(** ** The page over a run of the hook *)

Section Page.

Import RatesStream.

Variable toFixed2 : float → string.
Variable toLocaleString : string → string.
Variable JSON_parse : string → option RateUpdateMessage.t.

(** The pair at an index after a run that began with a loaded snapshot. *)
Lemma rate_after_run (snapshot : list PairState.t) (socket : SocketOutcome)
    (events : list Event) (h : Hook) (i : nat) (s : PairState.t) :
  run JSON_parse mounted (SnapshotSettled (Resolved snapshot) socket :: events)
    = Some h →
  snapshot !! i = Some s →
  ∃ p0, PairState.pair p0 = PairState.pair s ∧ PairState.history p0 = [] ∧
    PairState.price p0 = PairState.price s ∧
    rates (result h) !! i
    = Some (mergeUpdates p0 (ownUpdates s (mergedUpdates JSON_parse events))).
Proof.
  intros Hrun Hi. apply run_after_start in Hrun as [Hr _].
  set (p0 := PairState.mk (PairState.pair s) (PairState.price s)
                (PairState.hourly_avg s) (PairState.last_update s) []).
  exists p0. repeat split. rewrite Hr.
  change (ownUpdates s (mergedUpdates JSON_parse events))
    with (ownUpdates p0 (mergedUpdates JSON_parse events)).
  apply applyUpdates_lookup_own.
  destruct socket; simpl; unfold fromSnapshot;
    by rewrite list_lookup_fmap, Hi.
Qed.

(** X16. After a run that began with a loaded snapshot, the page shows one
    card per pair of the snapshot, in the order of the snapshot and titled
    with the pair; the chart of a card is the "Waiting for data" placeholder
    exactly as long as no update for its pair was merged, and after [n > 0]
    such updates it has [min 40 n] points. *)
Theorem cards_follow_snapshot_and_updates
    (snapshot : list PairState.t) (socket : SocketOutcome)
    (events : list Event) (h : Hook) (i : nat) (s : PairState.t) :
  run JSON_parse mounted (SnapshotSettled (Resolved snapshot) socket :: events)
    = Some h →
  snapshot !! i = Some s →
  let page := Dashboard.Dashboard toFixed2 toLocaleString (result h) in
  let n := length (ownUpdates s (mergedUpdates JSON_parse events)) in
  length (Dashboard.cards page) = length snapshot ∧
  ∃ card, Dashboard.cards page !! i = Some card ∧
    Dashboard.title card = PairState.pair s ∧
    (n = 0 → Dashboard.chart card = None) ∧
    (0 < n → ∃ coords, Dashboard.chart card = Some coords ∧
                       length coords = Nat.min 40 n).
Proof.
  intros Hrun Hi page n. subst page. simpl. split.
  - apply run_after_start in Hrun as [Hr _].
    rewrite length_fmap, Hr, applyUpdates_fmap, length_fmap.
    destruct socket; simpl; unfold fromSnapshot; apply length_fmap.
  - destruct (rate_after_run _ _ _ _ _ _ Hrun Hi) as (p0 & Hp & Hh & _ & Hl).
    rewrite list_lookup_fmap, Hl. simpl. eexists. split; [reflexivity|].
    unfold Dashboard.rateCard. simpl.
    split; [by rewrite mergeUpdates_pair|]. subst n.
    set (own := ownUpdates s (mergedUpdates JSON_parse events)).
    split.
    + intros Hn. apply length_zero_iff_nil in Hn. rewrite Hn. simpl. by rewrite Hh.
    + intros Hn.
      assert (Hne : own ≠ []) by (intros Heq; rewrite Heq in Hn; simpl in Hn; lia).
      assert (Hall : Forall (λ u, RateUpdateMessage.pair u = PairState.pair p0) own).
      { rewrite Hp. apply ownUpdates_Forall. }
      rewrite (mergeUpdates_history own p0 Hne Hall), Hh. simpl.
      exists (MiniChart.path (lastN MAX_POINTS (pointOf <$> own))).
      unfold MiniChart.MiniChart. rewrite decide_False.
      * split; [reflexivity|]. unfold MiniChart.path.
        by rewrite length_imap, length_lastN, length_fmap.
      * rewrite length_lastN, length_fmap. unfold MAX_POINTS. lia.
Qed.

End Page.

Section PageWitnesses.

Import RatesStream.

Lemma cards_follow_snapshot_and_updates_witness :
  ∃ h,
    run Sample.parse mounted
      [SnapshotSettled (Resolved [Sample.eth_usd; Sample.eth_btc]) Constructed;
       Open; Message "usd_110"; Message "usd_110"] = Some h ∧
    let page := Dashboard.Dashboard Sample.toFixed2 Sample.toLocaleString (result h) in
    let n := length (ownUpdates Sample.eth_usd
                       (mergedUpdates Sample.parse
                          [Open; Message "usd_110"; Message "usd_110"])) in
    length (Dashboard.cards page) = 2 ∧
    ∃ card, Dashboard.cards page !! 0 = Some card ∧
      Dashboard.title card = "ETH/USD" ∧
      (n = 0 → Dashboard.chart card = None) ∧
      (0 < n → ∃ coords, Dashboard.chart card = Some coords ∧
                         length coords = Nat.min 40 n).
Proof.
  eexists. split; [reflexivity|].
  apply (cards_follow_snapshot_and_updates Sample.toFixed2 Sample.toLocaleString
           Sample.parse [Sample.eth_usd; Sample.eth_btc] Constructed
           [Open; Message "usd_110"; Message "usd_110"] _ 0 Sample.eth_usd);
    reflexivity.
Defined.

End PageWitnesses.
